(** * The Wikipedia question-answering bot of [a10.py]

    A shallow embedding of the pattern-action query engine of [a10.py]:
    the text helpers, the fact getters, the actions, the registry
    [pa_list], the dispatcher [search_pa_list] and the console loop
    [query_loop], followed by the properties stated about them.

    Python [str] values are modelled as [string]: a sequence of characters
    whose codes are read as the code points U+0000 to U+00FF.  On that range
    [str.lower] and [str.split] act character by character, which is how
    they are written below. *)

From Stdlib Require Import String Ascii List Bool Arith Lia.
Import ListNotations.

Local Open Scope string_scope.
Local Open Scope list_scope.
Local Open Scope nat_scope.

(** ** Python [str] primitives *)

Module PyStr.

Definition code (c : ascii) : nat := nat_of_ascii c.

Definition between (lo hi : nat) (c : ascii) : bool :=
  (lo <=? code c) && (code c <=? hi).

(** The newline character and the one-character string ["\n"]. *)
Definition newline : ascii := ascii_of_nat 10.
Definition space : ascii := ascii_of_nat 32.
Definition nl : string := String newline EmptyString.

(** The constants of the [string] module that make up [string.printable]. *)
Definition digits (c : ascii) : bool := between 48 57 c.
Definition ascii_letters (c : ascii) : bool := between 97 122 c || between 65 90 c.
Definition punctuation (c : ascii) : bool :=
  between 33 47 c || between 58 64 c || between 91 96 c || between 123 126 c.
(** [string.whitespace] is [" \t\n\r\x0b\x0c"]. *)
Definition whitespace (c : ascii) : bool := (code c =? 32) || between 9 13 c.
Definition printable (c : ascii) : bool :=
  digits c || ascii_letters c || punctuation c || whitespace c.

(** [str.isspace] on one character: the ASCII blanks, the separators
    U+001C to U+001F, NEL (U+0085) and the no-break space (U+00A0). *)
Definition isspace (c : ascii) : bool :=
  between 9 13 c || between 28 32 c || (code c =? 133) || (code c =? 160).

(** [str.lower] on one character: A-Z and the capital letters of Latin-1
    (U+00C0 to U+00DE, the multiplication sign U+00D7 apart) move up by 32. *)
Definition lower_char (c : ascii) : ascii :=
  if between 65 90 c || between 192 214 c || between 216 222 c
  then ascii_of_nat (code c + 32)
  else c.

Fixpoint map_chars (f : ascii -> ascii) (s : string) : string :=
  match s with
  | EmptyString => EmptyString
  | String c s' => String (f c) (map_chars f s')
  end.

Definition lower (s : string) : string := map_chars lower_char s.

(** [s.replace(old, "")] for a one-character [old]: every occurrence goes. *)
Fixpoint replace_with_empty (old : ascii) (s : string) : string :=
  match s with
  | EmptyString => EmptyString
  | String c s' =>
      if Ascii.eqb c old then replace_with_empty old s'
      else String c (replace_with_empty old s')
  end.

Definition emit (word : string) : list string :=
  match word with
  | EmptyString => []
  | _ => [word]
  end.

(** [str.split()] without arguments: maximal runs of non-blank characters.
    [word] is the run being read. *)
Fixpoint split_from (word s : string) : list string :=
  match s with
  | EmptyString => emit word
  | String c s' =>
      if isspace c then emit word ++ split_from EmptyString s'
      else split_from (word ++ String c EmptyString)%string s'
  end.

Definition split (s : string) : list string := split_from EmptyString s.

(** [sep.join(words)]. *)
Fixpoint join (sep : string) (words : list string) : string :=
  match words with
  | [] => EmptyString
  | [w] => w
  | w :: rest => (w ++ sep ++ join sep rest)%string
  end.

Definition starts_with (d : ascii) (s : string) : bool :=
  match s with
  | EmptyString => false
  | String c _ => Ascii.eqb c d
  end.

(** [re.sub(d+, d, s)] for a one-character [d]: every maximal run of [d]
    becomes a single [d]. *)
Fixpoint squeeze (d : ascii) (s : string) : string :=
  match s with
  | EmptyString => EmptyString
  | String c s' =>
      if Ascii.eqb c d && starts_with d s' then squeeze d s'
      else String c (squeeze d s')
  end.

Fixpoint all_chars (p : ascii -> bool) (s : string) : bool :=
  match s with
  | EmptyString => true
  | String c s' => p c && all_chars p s'
  end.

(** No two adjacent occurrences of [d]. *)
Fixpoint no_run (d : ascii) (s : string) : bool :=
  match s with
  | EmptyString => true
  | String c s' => negb (Ascii.eqb c d && starts_with d s') && no_run d s'
  end.

Definition question_mark : ascii := ascii_of_nat 63.

Definition not_char (d : ascii) (c : ascii) : bool := negb (Ascii.eqb c d).

Definition has_char (d : ascii) (s : string) : bool :=
  negb (all_chars (not_char d) s).

End PyStr.

Import PyStr.

(** ** [clean_text] *)

Definition clean_text (text : string) : string :=
  let only_ascii := map_chars (fun char => if printable char then char else space) text in
  let no_dup_spaces := squeeze space only_ascii in
  let no_dup_newlines := squeeze newline no_dup_spaces in
  no_dup_newlines.

(** ** Exceptions and outcomes *)

(** The exceptions the program can meet.  [LibraryError cls] stands for an
    exception raised inside the [wikipedia] client (page not found, network
    failure, ...), [cls] naming its class; none of these classes derives
    from [KeyboardInterrupt] or [EOFError]. *)
Inductive exn : Type :=
| KeyboardInterrupt
| EOFError
| IndexError
| LookupError (msg : string)
| AttributeError (msg : string)
| ValueError (msg : string)
| LibraryError (cls : string).

Inductive outcome (A : Type) : Type :=
| Ret (a : A)
| Raise (e : exn).
Arguments Ret {A} a.
Arguments Raise {A} e.

(** ** The external collaborators *)

Inductive group_ref : Type :=
| GroupName (name : string)
| GroupIndex (i : nat).

(** What the program uses of the [wikipedia], [bs4] and [re] libraries.
    [net] is the state of the outside world; a request either fails with
    the class of a library exception or answers, and may change [net]. *)
Record World : Type := {
  net : Type;
  wikipedia_search : string -> net -> (string + list string) * net;
  WikipediaPage_html : string -> net -> (string + string) * net;
  (** The texts of the elements of class [infobox], in document order. *)
  infobox_texts : string -> list string;
  re_match : Type;
  (** [re.compile(pattern, re.DOTALL | re.IGNORECASE).search(text)]. *)
  re_search : string -> string -> option re_match;
  group : re_match -> group_ref -> string
}.

(** A request sent to the knowledge source. *)
Inductive request : Type :=
| Search (title : string)
| FetchHtml (title : string).

(** The state an action runs in: the outside world and the log of the
    requests sent so far. *)
Record Session (w : World) : Type := {
  world : net w;
  requests : list request
}.
Arguments world {w} _.
Arguments requests {w} _.

Definition M (w : World) (A : Type) : Type := Session w -> outcome A * Session w.

Definition ret {w : World} {A : Type} (a : A) : M w A := fun s => (Ret a, s).

Definition raise {w : World} {A : Type} (e : exn) : M w A := fun s => (Raise e, s).

Definition bind {w : World} {A B : Type} (m : M w A) (k : A -> M w B) : M w B :=
  fun s =>
    match m s with
    | (Ret a, s') => k a s'
    | (Raise e, s') => (Raise e, s')
    end.

Notation "x <- m ;; k" := (bind m (fun x => k))
  (at level 61, m at next level, right associativity).

(** A library request: logged, then answered by the world. *)
Definition call {w : World} {A : Type} (r : request)
    (f : net w -> (string + A) * net w) : M w A :=
  fun s =>
    let '(res, n') := f (world s) in
    let s' := {| world := n'; requests := requests s ++ [r] |} in
    match res with
    | inl cls => (Raise (LibraryError cls), s')
    | inr a => (Ret a, s')
    end.

(** ** Fact retrieval *)

Section Retrieval.
Context {w : World}.

Definition get_page_html (title : string) : M w string :=
  results <- call (Search title) (wikipedia_search w title) ;;
  match results with
  | [] => raise IndexError
  | first :: _ => call (FetchHtml first) (WikipediaPage_html w first)
  end.

Definition get_first_infobox_text (html : string) : M w string :=
  match infobox_texts w html with
  | [] => raise (LookupError "Page has no infobox")
  | first :: _ => ret first
  end.

Definition get_match (text pattern error_text : string) : M w (re_match w) :=
  match re_search w pattern text with
  | None => raise (AttributeError error_text)
  | Some m => ret m
  end.

Definition get_polar_radius (planet_name : string) : M w string :=
  html <- get_page_html planet_name ;;
  box <- get_first_infobox_text html ;;
  let infobox_text := clean_text box in
  let pattern := "(?:Polar radius.*?)(?: ?[\d]+ )?(?P<radius>[\d,.]+)(?:.*?)km" in
  let error_text := "Page infobox has no polar radius information" in
  m <- get_match infobox_text pattern error_text ;;
  ret (group w m (GroupName "radius")).

Definition get_birth_date (name : string) : M w string :=
  html <- get_page_html name ;;
  box <- get_first_infobox_text html ;;
  let infobox_text := clean_text box in
  let pattern := "(?:Born\D*)(?P<birth>\d{4}-\d{2}-\d{2})" in
  let error_text :=
    "Page infobox has no birth information (at least none in xxxx-xx-xx format)" in
  m <- get_match infobox_text pattern error_text ;;
  ret (group w m (GroupName "birth")).

Definition get_city_pop (name : string) : M w string :=
  if String.eqb name "" then raise (ValueError "City name must be provided")
  else
    html <- get_page_html name ;;
    box <- get_first_infobox_text html ;;
    let infobox_text := clean_text box in
    let pattern :=
      "Population [a-zA-Z!@#$%^&*() [\]]+\d{4}[a-zA-Z!@#$%^&*() [\]]+\d{0,2}[a-zA-Z!@#$%^&*() [\]]+?([0-9,]+)" in
    let error_text := "Page infobox has no population information" in
    m <- get_match infobox_text pattern error_text ;;
    ret (group w m (GroupIndex 1)).

Definition get_city_coords (name : string) : M w string :=
  if String.eqb name "" then raise (ValueError "City name must be provided")
  else
    html <- get_page_html name ;;
    box <- get_first_infobox_text html ;;
    let infobox_text := clean_text box in
    let pattern := "Coordinates: ?(\d+\s\d+\s+\d+\s\w\s\d+\s\d+\s\d+\s+\w)" in
    let error_text := "Page infobox has no coordinates information" in
    m <- get_match infobox_text pattern error_text ;;
    ret (group w m (GroupIndex 1)).

Definition get_city_country (name : string) : M w string :=
  if String.eqb name "" then raise (ValueError "City name must be provided")
  else
    html <- get_page_html name ;;
    box <- get_first_infobox_text html ;;
    let infobox_text := clean_text box in
    let pattern := "Country\s*([A-Z][a-z]*(?: [A-Z][a-z]*)?)" in
    let error_text := "Page infobox has no country information" in
    m <- get_match infobox_text pattern error_text ;;
    ret (group w m (GroupIndex 1)).

(** ** Actions *)

Definition birth_date (matches : list string) : M w (list string) :=
  r <- get_birth_date (join " " matches) ;;
  ret [r].

Definition polar_radius (matches : list string) : M w (list string) :=
  match matches with
  | [] => raise IndexError
  | first :: _ => r <- get_polar_radius first ;; ret [r]
  end.

(** [not matches or not matches[0]]. *)
Definition nothing_named (matches : list string) : bool :=
  match matches with
  | [] => true
  | first :: _ => String.eqb first ""
  end.

Definition city_pop (matches : list string) : M w (list string) :=
  if nothing_named matches then ret ["No city specified"]
  else r <- get_city_pop (hd "" matches) ;; ret [r].

Definition city_coords (matches : list string) : M w (list string) :=
  if nothing_named matches then ret ["No city specified"]
  else r <- get_city_coords (hd "" matches) ;; ret [r].

Definition city_country (matches : list string) : M w (list string) :=
  if nothing_named matches then ret ["No city specified"]
  else r <- get_city_country (hd "" matches) ;; ret [r].

Definition bye_action (dummy : list string) : M w (list string) :=
  raise KeyboardInterrupt.

End Retrieval.

(** ** The registry and the dispatcher *)

Definition Pattern : Type := list string.
Definition Action (w : World) : Type := list string -> M w (list string).

(** The interface of [match.match]: a binding, or [None] for no match. *)
Definition Matcher : Type := Pattern -> list string -> option (list string).

Definition pa_list (w : World) : list (Pattern * Action w) :=
  [ (split "when was % born", birth_date);
    (split "what is the polar radius of %", polar_radius);
    (split "what is the population of %", city_pop);
    (split "what are the coordinates of %", city_coords);
    (split "what country is % in", city_country);
    (["bye"], bye_action) ].

(** [search_pa_list] reads two names of its module: the imported function
    [match] and the global [pa_list].  They are its first two arguments
    here; the program runs it on [pa_list]. *)
Fixpoint search_pa_list {w : World} (mtch : Matcher)
    (pa : list (Pattern * Action w)) (src : list string) : M w (list string) :=
  match pa with
  | [] => ret ["I don't understand"]
  | (pat, act) :: later =>
      match mtch pat src with
      | Some mat =>
          answer <- act mat ;;
          ret (match answer with [] => ["No answers"] | _ :: _ => answer end)
      | None => search_pa_list mtch later src
      end
  end.

(** ** The console loop *)

(** What [input] meets on the console: a typed line or an interrupt
    (Ctrl-C); the end of the list is the end of input (Ctrl-D). *)
Inductive console : Type :=
| Line (text : string)
| CtrlC.

Inductive exit_status : Type :=
| ExitSuccess
| Uncaught (e : exn).

(** A finished run: how the process ended, what it wrote (one entry per
    [print] or prompt), the input it never read, and the final session. *)
Record Run (w : World) : Type := {
  status : exit_status;
  written : list string;
  unread : list console;
  session : Session w
}.
Arguments status {w} _.
Arguments written {w} _.
Arguments unread {w} _.
Arguments session {w} _.

(** What [print(s)] writes. *)
Definition print (s : string) : string := (s ++ nl)%string.

Definition prompt : string := "Your query? ".

(** The [except (KeyboardInterrupt, EOFError)] clause. *)
Definition caught (e : exn) : bool :=
  match e with
  | KeyboardInterrupt | EOFError => true
  | _ => false
  end.

(** The statement after the loop. *)
Definition so_long {w : World} (stdin : list console) (s : Session w)
    (out : list string) : Run w :=
  {| status := ExitSuccess;
     written := out ++ [print (nl ++ "So long!" ++ nl)%string];
     unread := stdin;
     session := s |}.

(** The [while True] loop, one iteration per console event. *)
Fixpoint loop {w : World} (mtch : Matcher) (pa : list (Pattern * Action w))
    (stdin : list console) (s : Session w) (out : list string) : Run w :=
  let out := out ++ [print ""; prompt] in
  match stdin with
  | [] => so_long [] s out
  | CtrlC :: rest => so_long rest s out
  | Line text :: rest =>
      let query := split (lower (replace_with_empty question_mark text)) in
      match search_pa_list mtch pa query s with
      | (Ret answers, s') => loop mtch pa rest s' (out ++ map print answers)
      | (Raise e, s') =>
          if caught e then so_long rest s' out
          else {| status := Uncaught e; written := out; unread := rest; session := s' |}
      end
  end.

Definition query_loop {w : World} (mtch : Matcher) (pa : list (Pattern * Action w))
    (stdin : list console) (s : Session w) : Run w :=
  loop mtch pa stdin s [print ("Welcome to the information database!" ++ nl)%string].

(** ** The template matcher *)

Module Matching.

(** The reserved wildcard marker of the templates of [pa_list]. *)
Definition wildcard : string := "%".

Definition is_wildcard (entry : string) : bool := String.eqb entry wildcard.

(** Equality of two tokens up to case. *)
Definition same_word (token literal : string) : bool :=
  String.eqb (lower token) (lower literal).

(** The candidate prefix lengths [lens] are tried in order; the first one
    after which [rest_matches] accepts what is left of [query] wins. *)
Fixpoint try_prefixes (rest_matches : list string -> option (list string))
    (query : list string) (lens : list nat) : option (list string) :=
  match lens with
  | [] => None
  | n :: lens' =>
      match rest_matches (skipn n query) with
      | Some bound => Some (firstn n query ++ bound)
      | None => try_prefixes rest_matches query lens'
      end
  end.

(** Modelled from the spec: the function [match] of the module [match.py],
    which [a10.py] imports and whose source is absent.  Section 4.1 of the
    specification gives its algorithm: an empty template matches the empty
    query only; a wildcard that ends the template binds all that is left of
    the query; a wildcard with entries after it binds a non-empty prefix,
    the lengths being tried from 1 upward; a literal entry consumes one
    token equal to it up to case.  The result is the sequence of the tokens
    the wildcards bound, or [None] when there is no match. *)
Fixpoint match_ (template query : list string) {struct template}
    : option (list string) :=
  match template with
  | [] =>
      match query with
      | [] => Some []
      | _ :: _ => None
      end
  | entry :: rest =>
      if is_wildcard entry then
        match rest with
        | [] => Some query
        | _ :: _ => try_prefixes (match_ rest) query (seq 1 (length query))
        end
      else
        match query with
        | [] => None
        | token :: query' =>
            if same_word token entry then match_ rest query' else None
        end
  end.

End Matching.

Import Matching.

(** ** Sample worlds *)

(** A knowledge source that answers every request; its pages carry an
    infobox or not, and every regular expression finds the same date. *)
Definition sample_world (with_infobox : bool) : World :=
  {| net := unit;
     wikipedia_search := fun title n => (inr [title], n);
     WikipediaPage_html := fun title n => (inr ("<html>" ++ title)%string, n);
     infobox_texts := fun html => if with_infobox then ["Born 1867-11-07"] else [];
     re_match := string;
     re_search := fun pattern text => Some "1867-11-07";
     group := fun m _ => m |}.

Definition fresh (w : World) (n : net w) : Session w :=
  {| world := n; requests := [] |}.

(** An action that finds nothing, to exercise the dispatcher's fallback. *)
Definition no_answer {w : World} (matches : list string) : M w (list string) :=
  ret [].

(** The tokenization the specification describes: only a question mark
    that ends the line is removed. *)
Fixpoint strip_trailing_question_mark (s : string) : string :=
  match s with
  | EmptyString => EmptyString
  | String c s' =>
      match s' with
      | EmptyString => if Ascii.eqb c question_mark then EmptyString else s
      | String _ _ => String c (strip_trailing_question_mark s')
      end
  end.

Definition spec_tokens (line : string) : list string :=
  split (lower (strip_trailing_question_mark line)).

(** The tokenization of [query_loop]. *)
Definition tokens (line : string) : list string :=
  split (lower (replace_with_empty question_mark line)).

(** ** Vocabulary of the statements *)

(** Every exception [m] can raise satisfies [P]. *)
Definition raises_only {w : World} {A : Type} (P : exn -> Prop) (m : M w A) : Prop :=
  forall s e s', m s = (Raise e, s') -> P e.

(** The exception raised by the guard [if not name] of a city getter. *)
Definition is_value_error (e : exn) : Prop := exists msg, e = ValueError msg.

(** The exceptions a failed retrieval ends in: an empty search result
    ([results[0]]), a page without infobox, a regular expression that finds
    nothing, or an exception of the library. *)
Definition retrieval_error (e : exn) : Prop :=
  match e with
  | IndexError | LookupError _ | AttributeError _ | LibraryError _ => True
  | KeyboardInterrupt | EOFError | ValueError _ => False
  end.

(** No entry of [pa] matches [src]. *)
Definition none_match {w : World} (mtch : Matcher) (src : list string)
    (pa : list (Pattern * Action w)) : Prop :=
  Forall (fun entry => mtch (fst entry) src = None) pa.

(** The actions of [pa_list] that retrieve a fact. *)
Definition retrieval_actions (w : World) : list (Action w) :=
  [birth_date; polar_radius; city_pop; city_coords; city_country].

(** How a city action uses its getter: on a binding that names nothing it
    answers at once and leaves the session as it was; otherwise it hands
    the first token, which is not empty, to the getter, where no run
    raises the getter's [ValueError]. *)
Definition guards {w : World} (action : Action w) (getter : string -> M w string)
    : Prop :=
  forall matches : list string,
    (nothing_named matches = true
     /\ forall s, action matches s = (Ret ["No city specified"], s))
    \/ (exists name more,
          matches = name :: more
          /\ name <> ""
          /\ (forall s, action matches s = (r <- getter name ;; ret [r]) s)
          /\ raises_only (fun e => ~ is_value_error e) (getter name)
          /\ raises_only (fun e => ~ is_value_error e) (action matches)).

(** A template made of literal entries only. *)
Definition literal_only (template : list string) : bool :=
  forallb (fun entry => negb (is_wildcard entry)) template.

(** The literal entries [lead] are met, one by one and up to case, by the
    first tokens of [query]. *)
Fixpoint literals_agree (lead query : list string) : bool :=
  match lead, query with
  | [], _ => true
  | _ :: _, [] => false
  | literal :: lead', token :: query' =>
      same_word token literal && literals_agree lead' query'
  end.

(** ** Vocabulary of the further properties *)

Fixpoint filter_chars (p : ascii -> bool) (s : string) : string :=
  match s with
  | EmptyString => EmptyString
  | String c s' => if p c then String c (filter_chars p s') else filter_chars p s'
  end.

(** The characters [clean_text] neither replaces nor merges: the printable
    ones other than the space and the newline. *)
Definition visible (c : ascii) : bool :=
  printable c && negb (Ascii.eqb c space) && negb (Ascii.eqb c newline).

Definition not_blank (c : ascii) : bool := negb (isspace c).

(** A character [lower] leaves as it is. *)
Definition is_lower_char (c : ascii) : bool := Ascii.eqb (lower_char c) c.

(** A word: not empty and without blank. *)
Definition is_word (t : string) : bool :=
  negb (String.eqb t "") && all_chars not_blank t.

(** The requests a lookup of [title] sends, by how it ends: a result needs
    the search and the fetch of one page; the refusal of an empty name
    sends nothing; any other failure comes after the search, or after the
    search and the fetch. *)
Definition lookup_requests {A : Type} (title : string) (r : outcome A)
    (l : list request) : Prop :=
  match r with
  | Ret _ => exists first, l = [Search title; FetchHtml first]
  | Raise (ValueError _) => l = []
  | Raise _ => l = [Search title] \/ exists first, l = [Search title; FetchHtml first]
  end.

(** Every run of [m] adds to the log of requests a list that [P] accepts
    for the way the run ends. *)
Definition sends {w : World} {A : Type} (P : outcome A -> list request -> Prop)
    (m : M w A) : Prop :=
  forall s, exists l,
    requests (snd (m s)) = requests s ++ l /\ P (fst (m s)) l.

(** The exceptions of a getter whose regular expression reports a miss
    with [error_text]. *)
Definition getter_error (error_text : string) (e : exn) : Prop :=
  match e with
  | IndexError | LibraryError _ => True
  | LookupError msg => msg = "Page has no infobox"
  | AttributeError msg => msg = error_text
  | KeyboardInterrupt | EOFError | ValueError _ => False
  end.

(** The same for a city getter, which first refuses the empty name. *)
Definition city_getter_error (name error_text : string) (e : exn) : Prop :=
  if String.eqb name "" then e = ValueError "City name must be provided"
  else getter_error error_text e.

(** A computation that sends nothing and leaves the session as it is, and
    that does not raise a [ValueError]. *)
Definition quiet {w : World} {A : Type} (m : M w A) : Prop :=
  forall s, snd (m s) = s /\ forall msg, fst (m s) <> Raise (ValueError msg).

(** The requests of at most one lookup: none, a search, or a search and
    the fetch of one page. *)
Definition one_lookup (l : list request) : Prop :=
  l = [] \/ exists title, l = [Search title] \/ exists first, l = [Search title; FetchHtml first].

Definition welcome : string := print ("Welcome to the information database!" ++ nl)%string.

Definition farewell : string := print (nl ++ "So long!" ++ nl)%string.

(** * Properties *)

(** ** Text cleaning *)

Lemma starts_with_squeeze (d d' : ascii) (s : string) :
  starts_with d' (squeeze d s) = starts_with d' s.
Proof.
  induction s as [|c s IH]; [reflexivity|].
  simpl. destruct (Ascii.eqb c d && starts_with d s) eqn:E; [|reflexivity].
  rewrite IH. apply andb_true_iff in E as [Ec Es].
  destruct s as [|c2 s2]; [discriminate|]. simpl in *.
  apply Ascii.eqb_eq in Ec, Es. congruence.
Qed.

Lemma no_run_squeeze_other (d d' : ascii) (s : string) :
  no_run d' s = true -> no_run d' (squeeze d s) = true.
Proof.
  induction s as [|c s IH]; [reflexivity|].
  simpl. intros H. apply andb_true_iff in H as [Hc Hs].
  destruct (Ascii.eqb c d && starts_with d s); [now apply IH|].
  simpl. rewrite starts_with_squeeze, Hc. now apply IH.
Qed.

Lemma no_run_squeeze (d : ascii) (s : string) : no_run d (squeeze d s) = true.
Proof.
  induction s as [|c s IH]; [reflexivity|].
  simpl. destruct (Ascii.eqb c d && starts_with d s) eqn:E; [exact IH|].
  simpl. now rewrite starts_with_squeeze, E, IH.
Qed.

Lemma squeeze_fixed (d : ascii) (s : string) : no_run d s = true -> squeeze d s = s.
Proof.
  induction s as [|c s IH]; [reflexivity|].
  simpl. intros H. apply andb_true_iff in H as [Hc Hs].
  apply negb_true_iff in Hc. rewrite Hc. f_equal. now apply IH.
Qed.

Lemma all_chars_squeeze (p : ascii -> bool) (d : ascii) (s : string) :
  all_chars p s = true -> all_chars p (squeeze d s) = true.
Proof.
  induction s as [|c s IH]; [reflexivity|].
  simpl. intros H. apply andb_true_iff in H as [Hc Hs].
  destruct (Ascii.eqb c d && starts_with d s); [now apply IH|].
  simpl. now rewrite Hc, IH.
Qed.

Lemma all_chars_only_printable (s : string) :
  all_chars printable (map_chars (fun c => if printable c then c else space) s) = true.
Proof.
  induction s as [|c s IH]; [reflexivity|].
  simpl. rewrite IH. destruct (printable c) eqn:E; [now rewrite E | reflexivity].
Qed.

Lemma only_printable_fixed (s : string) :
  all_chars printable s = true ->
  map_chars (fun c => if printable c then c else space) s = s.
Proof.
  induction s as [|c s IH]; [reflexivity|].
  simpl. intros H. apply andb_true_iff in H as [Hc Hs].
  now rewrite Hc, IH.
Qed.

Lemma clean_text_printable (s : string) : all_chars printable (clean_text s) = true.
Proof.
  unfold clean_text. do 2 apply all_chars_squeeze. apply all_chars_only_printable.
Qed.

Lemma clean_text_no_spaces_run (s : string) : no_run space (clean_text s) = true.
Proof.
  unfold clean_text. apply no_run_squeeze_other, no_run_squeeze.
Qed.

Lemma clean_text_no_newlines_run (s : string) : no_run newline (clean_text s) = true.
Proof. unfold clean_text. apply no_run_squeeze. Qed.

(** C9: [clean_text] is idempotent, [clean_text (clean_text s) = clean_text s]
    for every string [s], and one pass already leaves only printable
    characters, no two adjacent spaces and no two adjacent newlines. *)
Theorem clean_text_idempotent (s : string) :
  clean_text (clean_text s) = clean_text s
  /\ all_chars printable (clean_text s) = true
  /\ no_run space (clean_text s) = true
  /\ no_run newline (clean_text s) = true.
Proof.
  pose proof (clean_text_printable s) as Hp.
  pose proof (clean_text_no_spaces_run s) as Hs.
  pose proof (clean_text_no_newlines_run s) as Hn.
  repeat split; try assumption.
  remember (clean_text s) as t eqn:Et.
  unfold clean_text.
  rewrite (only_printable_fixed t Hp), (squeeze_fixed space t Hs).
  now apply squeeze_fixed.
Qed.

(** ** Tokenization *)

Lemma has_char_false (d : ascii) (s : string) :
  has_char d s = false <-> all_chars (not_char d) s = true.
Proof. unfold has_char. apply negb_false_iff. Qed.

Lemma has_char_cons (d c : ascii) (s : string) :
  has_char d (String c s) = Ascii.eqb c d || has_char d s.
Proof.
  unfold has_char, not_char. simpl. rewrite negb_andb, negb_involutive. reflexivity.
Qed.

Lemma has_char_app (d : ascii) (s t : string) :
  has_char d (s ++ t)%string = has_char d s || has_char d t.
Proof.
  induction s as [|c s IH]; [reflexivity|].
  simpl append. rewrite !has_char_cons, IH. apply orb_assoc.
Qed.

Lemma replace_with_empty_removes (d : ascii) (s : string) :
  has_char d (replace_with_empty d s) = false.
Proof.
  induction s as [|c s IH]; [reflexivity|].
  simpl. destruct (Ascii.eqb c d) eqn:E; [exact IH|].
  now rewrite has_char_cons, E, IH.
Qed.

Lemma lower_char_question_mark (c : ascii) :
  Ascii.eqb (lower_char c) question_mark = Ascii.eqb c question_mark.
Proof.
  destruct c as [b0 b1 b2 b3 b4 b5 b6 b7].
  destruct b0, b1, b2, b3, b4, b5, b6, b7; reflexivity.
Qed.

Lemma lower_question_mark (s : string) :
  has_char question_mark (lower s) = has_char question_mark s.
Proof.
  induction s as [|c s IH]; [reflexivity|].
  unfold lower in *. simpl map_chars.
  now rewrite !has_char_cons, IH, lower_char_question_mark.
Qed.

Lemma emit_without (d : ascii) (word : string) :
  has_char d word = false -> Forall (fun t => has_char d t = false) (emit word).
Proof.
  intros H. destruct word; simpl; [constructor|]. constructor; [exact H | constructor].
Qed.

(** A token holds only characters of the text it was cut from. *)
Lemma split_from_without (d : ascii) (s word : string) :
  has_char d word = false -> has_char d s = false ->
  Forall (fun t => has_char d t = false) (split_from word s).
Proof.
  revert word. induction s as [|c s IH]; intros word Hw Hs; simpl.
  - now apply emit_without.
  - rewrite has_char_cons in Hs. apply orb_false_iff in Hs as [Hc Hs].
    destruct (isspace c).
    + apply Forall_app. split; [now apply emit_without | now apply IH].
    + apply IH; [|exact Hs].
      rewrite has_char_app, has_char_cons, Hw, Hc. reflexivity.
Qed.

Lemma emit_with (d : ascii) (word : string) :
  has_char d word = true -> Exists (fun t => has_char d t = true) (emit word).
Proof.
  intros H. destruct word; [discriminate|]. simpl. now constructor.
Qed.

(** A character that is not a blank survives the split. *)
Lemma split_from_with (d : ascii) (s word : string) :
  isspace d = false ->
  has_char d word = true \/ has_char d s = true ->
  Exists (fun t => has_char d t = true) (split_from word s).
Proof.
  intros Hd. revert word. induction s as [|c s IH]; intros word H; simpl.
  - destruct H as [H|H]; [now apply emit_with | discriminate].
  - rewrite has_char_cons in H.
    destruct (isspace c) eqn:Ec.
    + assert (Ascii.eqb c d = false) as Hcd.
      { destruct (Ascii.eqb_spec c d); [congruence | reflexivity]. }
      rewrite Hcd in H. simpl in H.
      apply Exists_app. destruct H as [H|H]; [left; now apply emit_with|].
      right. apply IH. now right.
    + apply IH. rewrite has_char_app, has_char_cons.
      destruct H as [H|H]; [left; now rewrite H|].
      apply orb_true_iff in H as [H|H]; [left | now right].
      rewrite H. simpl. apply orb_true_r.
Qed.

Lemma replace_is_strip (line : string) :
  has_char question_mark (strip_trailing_question_mark line) = false ->
  replace_with_empty question_mark line = strip_trailing_question_mark line.
Proof.
  induction line as [|c s IH]; [reflexivity|].
  destruct s as [|c2 s2].
  - simpl. destruct (Ascii.eqb c question_mark); reflexivity.
  - change (strip_trailing_question_mark (String c (String c2 s2)))
      with (String c (strip_trailing_question_mark (String c2 s2))).
    rewrite has_char_cons. intros H. apply orb_false_iff in H as [Hc Hs].
    change (replace_with_empty question_mark (String c (String c2 s2)))
      with (if Ascii.eqb c question_mark
            then replace_with_empty question_mark (String c2 s2)
            else String c (replace_with_empty question_mark (String c2 s2))).
    rewrite Hc. f_equal. now apply IH.
Qed.

Lemma tokens_without_question_mark (line : string) :
  Forall (fun t => has_char question_mark t = false) (tokens line).
Proof.
  unfold tokens, split. apply split_from_without; [reflexivity|].
  rewrite lower_question_mark. apply replace_with_empty_removes.
Qed.

(** C3 does not hold as worded: a question mark inside the line is removed
    as well, so the tokens differ from those obtained by stripping a
    trailing question mark only. *)
Lemma tokens_strip_inner_question_mark :
  tokens "what? is this" = ["what"; "is"; "this"]
  /\ spec_tokens "what? is this" = ["what?"; "is"; "this"]
  /\ tokens "what? is this" <> spec_tokens "what? is this".
Proof. repeat split; try reflexivity. discriminate. Qed.

(** C3 (amended): for every raw input line, the query loop removes every
    question mark of the line (not only a trailing one), lowercases the
    result and splits it on whitespace, and that token list is what it
    passes to the dispatcher; no token holds a question mark; the tokens
    are those of trailing-only stripping exactly when the line has no
    question mark other than a trailing one. *)
Theorem query_loop_tokenization (line : string) :
  (forall (w : World) (mtch : Matcher) (pa : list (Pattern * Action w))
          (rest : list console) (s : Session w) (out : list string),
      loop mtch pa (Line line :: rest) s out =
      match search_pa_list mtch pa
              (split (lower (replace_with_empty question_mark line))) s with
      | (Ret answers, s') =>
          loop mtch pa rest s' ((out ++ [print ""; prompt]) ++ map print answers)
      | (Raise e, s') =>
          if caught e then so_long rest s' (out ++ [print ""; prompt])
          else {| status := Uncaught e; written := out ++ [print ""; prompt];
                  unread := rest; session := s' |}
      end)
  /\ Forall (fun t => has_char question_mark t = false) (tokens line)
  /\ (tokens line = spec_tokens line <->
      has_char question_mark (strip_trailing_question_mark line) = false).
Proof.
  split; [reflexivity|]. split; [apply tokens_without_question_mark|].
  split.
  - intros Heq.
    destruct (has_char question_mark (strip_trailing_question_mark line)) eqn:E;
      [exfalso | reflexivity].
    assert (Exists (fun t => has_char question_mark t = true) (spec_tokens line)) as Hex.
    { unfold spec_tokens, split. apply split_from_with; [reflexivity|].
      right. now rewrite lower_question_mark. }
    rewrite <- Heq in Hex. apply Exists_exists in Hex as [t [Hin Ht]].
    pose proof (tokens_without_question_mark line) as Hall.
    rewrite Forall_forall in Hall. specialize (Hall t Hin). congruence.
  - intros H. unfold tokens, spec_tokens. now rewrite replace_is_strip.
Qed.

(** ** The matcher's wildcard *)

(** The outcome of trying the prefix lengths [start], [start + 1], ...:
    either none of them works, or the first that works is taken. *)
Lemma try_prefixes_first (k : list string -> option (list string))
    (query : list string) (len start : nat) :
  (try_prefixes k query (seq start len) = None
   /\ forall n, start <= n < start + len -> k (skipn n query) = None)
  \/ exists n bound,
       start <= n < start + len
       /\ (forall m, start <= m < n -> k (skipn m query) = None)
       /\ k (skipn n query) = Some bound
       /\ try_prefixes k query (seq start len) = Some (firstn n query ++ bound).
Proof.
  revert start. induction len as [|len IH]; intros start.
  - left. split; [reflexivity | intros n Hn; lia].
  - simpl. destruct (k (skipn start query)) as [bound|] eqn:E.
    + right. exists start, bound. repeat split; try lia; try assumption.
    + destruct (IH (S start)) as [[Hnone Hall] | [n [bound [Hn [Hmin [Hk Hres]]]]]].
      * left. split; [exact Hnone|]. intros n Hn.
        destruct (Nat.eq_dec n start) as [->|Hne]; [exact E | apply Hall; lia].
      * right. exists n, bound. repeat split; try lia; try assumption.
        intros m Hm.
        destruct (Nat.eq_dec m start) as [->|Hne]; [exact E | apply Hmin; lia].
Qed.

(** A template without wildcard binds nothing. *)
Lemma match_literals_bind_nothing (template query bound : list string) :
  forallb (fun entry => negb (is_wildcard entry)) template = true ->
  match_ template query = Some bound -> bound = [].
Proof.
  revert query. induction template as [|entry rest IH]; intros query Hlit Hm.
  - destruct query; simpl in Hm; congruence.
  - simpl in Hlit. apply andb_true_iff in Hlit as [He Hrest].
    apply negb_true_iff in He. simpl in Hm. rewrite He in Hm.
    destruct query as [|token query']; [discriminate|].
    destruct (same_word token entry); [|discriminate].
    now apply (IH query').
Qed.

(** A wildcard at the head of the template, followed by further entries:
    either no prefix length from 1 to the length of the query lets the rest
    of the template match the rest of the query, or the prefix of the least
    such length is bound. *)
Lemma head_wildcard_binds_shortest_prefix (entry : string) (rest query : list string) :
  (match_ (wildcard :: entry :: rest) query = None
   /\ forall n, 1 <= n <= length query ->
        match_ (entry :: rest) (skipn n query) = None)
  \/ exists n bound,
       1 <= n <= length query
       /\ (forall m, 1 <= m < n -> match_ (entry :: rest) (skipn m query) = None)
       /\ match_ (entry :: rest) (skipn n query) = Some bound
       /\ match_ (wildcard :: entry :: rest) query = Some (firstn n query ++ bound)
       /\ firstn n query <> []
       /\ (forallb (fun e => negb (is_wildcard e)) (entry :: rest) = true ->
           bound = []).
Proof.
  change (match_ (wildcard :: entry :: rest) query)
    with (try_prefixes (match_ (entry :: rest)) query (seq 1 (length query))).
  destruct (try_prefixes_first (match_ (entry :: rest)) query (length query) 1)
    as [[Hnone Hall] | [n [bound [Hn [Hmin [Hk Hres]]]]]].
  - left. split; [exact Hnone|]. intros n Hn. apply Hall. lia.
  - right. exists n, bound. repeat split; try lia; try assumption.
    + destruct query as [|t q]; [simpl in Hn; lia|].
      destruct n as [|n]; [lia | discriminate].
    + intros Hlit. eapply match_literals_bind_nothing; eassumption.
Qed.

(** The unfolding of the matcher on a non-empty template. *)
Lemma match_cons (entry : string) (rest query : list string) :
  match_ (entry :: rest) query =
  if is_wildcard entry then
    match rest with
    | [] => Some query
    | _ :: _ => try_prefixes (match_ rest) query (seq 1 (length query))
    end
  else
    match query with
    | [] => None
    | token :: query' => if same_word token entry then match_ rest query' else None
    end.
Proof. reflexivity. Qed.

(** Leading literal entries consume one token each. *)
Lemma match_literal_lead (lead template : list string) :
  literal_only lead = true ->
  forall query,
    match_ (lead ++ template) query =
    if literals_agree lead query
    then match_ template (skipn (length lead) query)
    else None.
Proof.
  induction lead as [|literal lead IH]; intros Hlit query; [reflexivity|].
  simpl in Hlit. apply andb_true_iff in Hlit as [He Hlead].
  apply negb_true_iff in He.
  change ((literal :: lead) ++ template) with (literal :: (lead ++ template)).
  rewrite match_cons, He.
  destruct query as [|token query']; [reflexivity|].
  simpl. destruct (same_word token literal); [now apply IH | reflexivity].
Qed.

(** A match of [lead ++ template] splits the query in what [lead] took and
    what [template] matched, and the binding likewise. *)
Lemma match_reaches (lead template : list string) :
  template <> [] ->
  forall query bound,
    match_ (lead ++ template) query = Some bound ->
    exists consumed remaining bound_lead bound_template,
      query = consumed ++ remaining
      /\ bound = bound_lead ++ bound_template
      /\ match_ template remaining = Some bound_template.
Proof.
  intros Hne. induction lead as [|entry lead IH]; intros query bound H.
  - exists [], query, [], bound. now repeat split.
  - change ((entry :: lead) ++ template) with (entry :: (lead ++ template)) in H.
    rewrite match_cons in H. destruct (is_wildcard entry).
    + assert (forall (A : Type) (a b : A),
                match lead ++ template with [] => a | _ :: _ => b end = b)
        as Hbranch.
      { intros A a b. destruct (lead ++ template) eqn:E; [|reflexivity].
        apply app_eq_nil in E as [_ E]. contradiction. }
      rewrite Hbranch in H.
      destruct (try_prefixes_first (match_ (lead ++ template)) query (length query) 1)
        as [[Hnone _] | [n [b [_ [_ [Hk Hres]]]]]]; [congruence|].
      rewrite Hres in H. injection H as <-.
      destruct (IH _ _ Hk) as [consumed [remaining [b1 [b2 [Hq [Hb Hm]]]]]].
      exists (firstn n query ++ consumed), remaining, (firstn n query ++ b1), b2.
      repeat split; [|now rewrite Hb, app_assoc | exact Hm].
      now rewrite <- app_assoc, <- Hq, firstn_skipn.
    + destruct query as [|token query']; [discriminate|].
      destruct (same_word token entry); [|discriminate].
      destruct (IH _ _ H) as [consumed [remaining [b1 [b2 [Hq [Hb Hm]]]]]].
      exists (token :: consumed), remaining, b1, b2.
      repeat split; [now rewrite Hq | exact Hb | exact Hm].
Qed.

(** C1: for every template in which a wildcard is followed by further
    entries, [lead ++ wildcard :: entry :: rest], and every query.
    Whatever the leading entries, a match splits the query in what they
    took and the remaining query, and the wildcard binds the prefix of the
    remaining query of the least length [n >= 1] after which the rest of
    the template matches the rest of the query, every shorter non-empty
    prefix having failed; it never binds zero tokens.  When the leading
    entries are literals, as in the templates of [pa_list], the remaining
    query is the query without its first [length lead] tokens, and the
    result is settled in full: no match when those tokens differ from the
    literals or when no prefix length from 1 upward works, and otherwise
    the binding is the shortest such prefix followed by what the rest of
    the template bound (nothing, when only literal entries follow). *)
Theorem wildcard_binds_shortest_prefix (lead : list string) (entry : string)
    (rest query : list string) :
  (forall bound,
     match_ (lead ++ wildcard :: entry :: rest) query = Some bound ->
     exists consumed remaining bound_lead n bound_rest,
       query = consumed ++ remaining
       /\ bound = bound_lead ++ firstn n remaining ++ bound_rest
       /\ 1 <= n <= length remaining
       /\ firstn n remaining <> []
       /\ (forall m, 1 <= m < n ->
             match_ (entry :: rest) (skipn m remaining) = None)
       /\ match_ (entry :: rest) (skipn n remaining) = Some bound_rest
       /\ (literal_only (entry :: rest) = true -> bound_rest = []))
  /\ (literal_only lead = true ->
      let remaining := skipn (length lead) query in
      (match_ (lead ++ wildcard :: entry :: rest) query = None
       /\ (literals_agree lead query = false
           \/ forall n, 1 <= n <= length remaining ->
                match_ (entry :: rest) (skipn n remaining) = None))
      \/ exists n bound_rest,
           literals_agree lead query = true
           /\ 1 <= n <= length remaining
           /\ (forall m, 1 <= m < n ->
                 match_ (entry :: rest) (skipn m remaining) = None)
           /\ match_ (entry :: rest) (skipn n remaining) = Some bound_rest
           /\ match_ (lead ++ wildcard :: entry :: rest) query
              = Some (firstn n remaining ++ bound_rest)
           /\ firstn n remaining <> []
           /\ (literal_only (entry :: rest) = true -> bound_rest = [])).
Proof.
  split.
  - intros bound H.
    destruct (match_reaches lead (wildcard :: entry :: rest) ltac:(discriminate)
                query bound H)
      as [consumed [remaining [b1 [b2 [Hq [Hb Hm]]]]]].
    destruct (head_wildcard_binds_shortest_prefix entry rest remaining)
      as [[Hnone _] | [n [bound_rest [Hn [Hmin [Hk [Hres [Hne Hlit]]]]]]]];
      [congruence|].
    rewrite Hres in Hm. injection Hm as <-.
    exists consumed, remaining, b1, n, bound_rest.
    repeat split; try assumption; lia.
  - intros Hlead remaining.
    rewrite (match_literal_lead lead (wildcard :: entry :: rest) Hlead query).
    fold remaining.
    destruct (literals_agree lead query); [|left; split; [reflexivity | now left]].
    destruct (head_wildcard_binds_shortest_prefix entry rest remaining)
      as [[Hnone Hall] | [n [bound_rest [Hn [Hmin [Hk [Hres [Hne Hlit]]]]]]]].
    + left. split; [exact Hnone | now right].
    + right. exists n, bound_rest. repeat split; try assumption; lia.
Qed.

(** The birth-date template of [pa_list]: two literals, the wildcard, one
    literal. *)
Lemma wildcard_binds_shortest_prefix_witness :
  (match_ (["when"; "was"] ++ wildcard :: "born" :: [])
     ["when"; "was"; "marie"; "curie"; "born"] = None
   /\ (literals_agree ["when"; "was"] ["when"; "was"; "marie"; "curie"; "born"]
       = false
       \/ forall n, 1 <= n <= length ["marie"; "curie"; "born"] ->
            match_ ["born"] (skipn n ["marie"; "curie"; "born"]) = None))
  \/ exists n bound_rest,
       literals_agree ["when"; "was"] ["when"; "was"; "marie"; "curie"; "born"]
       = true
       /\ 1 <= n <= length ["marie"; "curie"; "born"]
       /\ (forall m, 1 <= m < n ->
             match_ ["born"] (skipn m ["marie"; "curie"; "born"]) = None)
       /\ match_ ["born"] (skipn n ["marie"; "curie"; "born"]) = Some bound_rest
       /\ match_ (["when"; "was"] ++ wildcard :: "born" :: [])
            ["when"; "was"; "marie"; "curie"; "born"]
          = Some (firstn n ["marie"; "curie"; "born"] ++ bound_rest)
       /\ firstn n ["marie"; "curie"; "born"] <> []
       /\ (literal_only ["born"] = true -> bound_rest = []).
Proof.
  apply (proj2 (wildcard_binds_shortest_prefix ["when"; "was"] "born" []
                  ["when"; "was"; "marie"; "curie"; "born"])).
  reflexivity.
Defined.

(** ** The dispatcher *)

Section Dispatch.
Context {w : World}.
Variable mtch : Matcher.

Lemma search_skips_non_matching (before pa : list (Pattern * Action w))
    (src : list string) :
  none_match mtch src before ->
  search_pa_list mtch (before ++ pa) src = search_pa_list mtch pa src.
Proof.
  induction 1 as [|[pat act] before Hnone _ IH]; [reflexivity|].
  simpl in *. now rewrite Hnone.
Qed.

Lemma search_runs_first_match (before later : list (Pattern * Action w))
    (pat : Pattern) (act : Action w) (src mat : list string) :
  none_match mtch src before ->
  mtch pat src = Some mat ->
  search_pa_list mtch (before ++ (pat, act) :: later) src =
  (answer <- act mat ;;
   ret (match answer with [] => ["No answers"] | _ :: _ => answer end)).
Proof.
  intros Hnone Hm. rewrite (search_skips_non_matching _ _ _ Hnone).
  simpl. now rewrite Hm.
Qed.

End Dispatch.

(** C2: for every query, [search_pa_list] runs the action of the earliest
    entry of the registry whose template matches, on the binding of that
    match; whatever entries come later in the registry, matching or not,
    the result and the session are the same, so no later action is run. *)
Theorem search_pa_list_first_match_wins (w : World) (mtch : Matcher)
    (before later : list (Pattern * Action w)) (pat : Pattern) (act : Action w)
    (src mat : list string) (s : Session w) :
  none_match mtch src before ->
  mtch pat src = Some mat ->
  search_pa_list mtch (before ++ (pat, act) :: later) src s =
    (answer <- act mat ;;
     ret (match answer with [] => ["No answers"] | _ :: _ => answer end)) s
  /\ forall later' : list (Pattern * Action w),
       search_pa_list mtch (before ++ (pat, act) :: later') src s =
       search_pa_list mtch (before ++ (pat, act) :: later) src s.
Proof.
  intros Hnone Hm. split.
  - now rewrite (search_runs_first_match mtch before later pat act src mat).
  - intros later'.
    now rewrite !(search_runs_first_match mtch before _ pat act src mat).
Qed.

(** Two overlapping templates: the query matches the birth-date template
    and the catch-all registered after it; the earlier one answers. *)
Lemma search_pa_list_first_match_wins_witness :
  search_pa_list match_
    ([(["bye"], bye_action)]
       ++ (split "when was % born", birth_date) :: [(["%"], no_answer)])
    (tokens "When was Marie Curie born?") (fresh (sample_world true) tt)
  = (answer <- birth_date ["marie"; "curie"] ;;
     ret (match answer with [] => ["No answers"] | _ :: _ => answer end))
      (fresh (sample_world true) tt)
  /\ forall later' : list (Pattern * Action (sample_world true)),
       search_pa_list match_
         ([(["bye"], bye_action)]
            ++ (split "when was % born", birth_date) :: later')
         (tokens "When was Marie Curie born?") (fresh (sample_world true) tt)
       = search_pa_list match_
           ([(["bye"], bye_action)]
              ++ (split "when was % born", birth_date) :: [(["%"], no_answer)])
           (tokens "When was Marie Curie born?") (fresh (sample_world true) tt).
Proof.
  apply (search_pa_list_first_match_wins (sample_world true) match_
           [(["bye"], bye_action)] [(["%"], no_answer)]
           (split "when was % born") birth_date
           (tokens "When was Marie Curie born?") ["marie"; "curie"]).
  - repeat constructor.
  - reflexivity.
Defined.

(** C4: when the earliest matching entry's action returns normally,
    [search_pa_list] returns its result unchanged if that result is a
    non-empty list, and [["No answers"]] if it is the empty list; the
    session is the one the action left. *)
Theorem search_pa_list_answers (w : World) (mtch : Matcher)
    (before later : list (Pattern * Action w)) (pat : Pattern) (act : Action w)
    (src mat answer : list string) (s s' : Session w) :
  none_match mtch src before ->
  mtch pat src = Some mat ->
  act mat s = (Ret answer, s') ->
  (answer <> [] ->
   search_pa_list mtch (before ++ (pat, act) :: later) src s = (Ret answer, s'))
  /\ (answer = [] ->
      search_pa_list mtch (before ++ (pat, act) :: later) src s
      = (Ret ["No answers"], s')).
Proof.
  intros Hnone Hm Hact.
  rewrite (search_runs_first_match mtch before later pat act src mat Hnone Hm).
  unfold bind. rewrite Hact. unfold ret.
  split; intros H; [destruct answer; congruence | now subst answer].
Qed.

(** The date of the sample world comes back as it is; an action that
    finds nothing, registered in front, gives the fallback. *)
Lemma search_pa_list_answers_witness :
  search_pa_list match_ (pa_list (sample_world true))
    (tokens "When was Marie Curie born?") (fresh (sample_world true) tt)
  = (Ret ["1867-11-07"],
     Build_Session (sample_world true) tt
       [Search "marie curie"; FetchHtml "marie curie"])
  /\ search_pa_list match_ ((["%"], no_answer) :: pa_list (sample_world true))
       (tokens "Anything at all?") (fresh (sample_world true) tt)
     = (Ret ["No answers"], fresh (sample_world true) tt).
Proof.
  split.
  - apply (proj1 (search_pa_list_answers (sample_world true) match_
                    [] (tl (pa_list (sample_world true)))
                    (split "when was % born") birth_date
                    (tokens "When was Marie Curie born?") ["marie"; "curie"]
                    ["1867-11-07"] (fresh (sample_world true) tt)
                    (Build_Session (sample_world true) tt
                       [Search "marie curie"; FetchHtml "marie curie"])
                    (Forall_nil _) eq_refl eq_refl)).
    discriminate.
  - apply (proj2 (search_pa_list_answers (sample_world true) match_
                    [] (pa_list (sample_world true))
                    ["%"] no_answer
                    (tokens "Anything at all?") ["anything"; "at"; "all"]
                    [] (fresh (sample_world true) tt) (fresh (sample_world true) tt)
                    (Forall_nil _) eq_refl eq_refl)).
    reflexivity.
Defined.

(** C5: when no entry's template matches the query, that is when the
    matcher returns [None] for each of them, [search_pa_list] returns
    [["I don't understand"]] and leaves the session as it was; an empty
    binding is a match and runs the action instead. *)
Theorem search_pa_list_no_match (w : World) (mtch : Matcher)
    (pa : list (Pattern * Action w)) (src : list string) (s : Session w) :
  none_match mtch src pa ->
  search_pa_list mtch pa src s = (Ret ["I don't understand"], s)
  /\ forall (pat : Pattern) (act : Action w) (later : list (Pattern * Action w)),
       mtch pat src = Some [] ->
       search_pa_list mtch (pa ++ (pat, act) :: later) src s =
       (answer <- act [] ;;
        ret (match answer with [] => ["No answers"] | _ :: _ => answer end)) s.
Proof.
  intros Hnone. split.
  - rewrite <- (app_nil_r pa), (search_skips_non_matching mtch pa [] src Hnone).
    reflexivity.
  - intros pat act later Hm.
    now rewrite (search_runs_first_match mtch pa later pat act src [] Hnone Hm).
Qed.

Lemma search_pa_list_no_match_witness :
  search_pa_list match_ (pa_list (sample_world true)) (tokens "Hello there")
    (fresh (sample_world true) tt)
  = (Ret ["I don't understand"], fresh (sample_world true) tt).
Proof.
  apply (proj1 (search_pa_list_no_match (sample_world true) match_
                  (pa_list (sample_world true)) (tokens "Hello there")
                  (fresh (sample_world true) tt)
                  ltac:(repeat constructor))).
Defined.

(** ** What an action can raise *)

Section Raises.
Context {w : World}.
Variable P : exn -> Prop.

Lemma raises_only_ret (A : Type) (a : A) : raises_only P (ret (w := w) a).
Proof. intros s e s' H. discriminate. Qed.

Lemma raises_only_raise (A : Type) (e : exn) :
  P e -> raises_only P (raise (w := w) (A := A) e).
Proof. intros He s e' s' H. unfold raise in H. congruence. Qed.

Lemma raises_only_bind (A B : Type) (m : M w A) (k : A -> M w B) :
  raises_only P m -> (forall a, raises_only P (k a)) -> raises_only P (bind m k).
Proof.
  intros Hm Hk s e s' H. unfold bind in H.
  destruct (m s) as [[a|e0] s0] eqn:E.
  - exact (Hk a s0 e s' H).
  - injection H as <- <-. exact (Hm s e0 s0 E).
Qed.

Lemma raises_only_call (A : Type) (r : request)
    (f : net w -> (string + A) * net w) :
  (forall cls, P (LibraryError cls)) -> raises_only P (call r f).
Proof.
  intros HP s e s' H. unfold call in H.
  destruct (f (world s)) as [[cls|a] n']; [|discriminate].
  injection H as <- _. apply HP.
Qed.

End Raises.

Create HintDb raises.
#[local] Hint Resolve raises_only_ret raises_only_raise raises_only_bind
  raises_only_call : raises.

Ltac retrieval :=
  repeat first
    [ apply raises_only_bind; [|intro]
    | apply raises_only_ret
    | apply raises_only_call; intro; exact I
    | apply raises_only_raise; exact I ].

Section RetrievalErrors.
Context {w : World}.

Lemma get_page_html_raises (title : string) :
  raises_only retrieval_error (get_page_html (w := w) title).
Proof.
  unfold get_page_html. apply raises_only_bind; [retrieval|].
  intros [|first results]; retrieval.
Qed.

Lemma get_first_infobox_text_raises (html : string) :
  raises_only retrieval_error (get_first_infobox_text (w := w) html).
Proof.
  unfold get_first_infobox_text. destruct (infobox_texts w html); retrieval.
Qed.

Lemma get_match_raises (text pattern error_text : string) :
  raises_only retrieval_error (get_match (w := w) text pattern error_text).
Proof. unfold get_match. destruct (re_search w pattern text); retrieval. Qed.

#[local] Hint Resolve get_page_html_raises get_first_infobox_text_raises
  get_match_raises : raises.

Lemma get_polar_radius_raises (planet_name : string) :
  raises_only retrieval_error (get_polar_radius (w := w) planet_name).
Proof. unfold get_polar_radius. auto 8 with raises. Qed.

Lemma get_birth_date_raises (name : string) :
  raises_only retrieval_error (get_birth_date (w := w) name).
Proof. unfold get_birth_date. auto 8 with raises. Qed.

Lemma get_city_pop_raises (name : string) :
  name <> "" -> raises_only retrieval_error (get_city_pop (w := w) name).
Proof.
  intros H. unfold get_city_pop. apply String.eqb_neq in H. rewrite H.
  auto 8 with raises.
Qed.

Lemma get_city_coords_raises (name : string) :
  name <> "" -> raises_only retrieval_error (get_city_coords (w := w) name).
Proof.
  intros H. unfold get_city_coords. apply String.eqb_neq in H. rewrite H.
  auto 8 with raises.
Qed.

Lemma get_city_country_raises (name : string) :
  name <> "" -> raises_only retrieval_error (get_city_country (w := w) name).
Proof.
  intros H. unfold get_city_country. apply String.eqb_neq in H. rewrite H.
  auto 8 with raises.
Qed.

Lemma named_first_token (matches : list string) :
  nothing_named matches = false ->
  exists name more, matches = name :: more /\ name <> "".
Proof.
  destruct matches as [|name more]; [discriminate|]. simpl. intros H.
  exists name, more. split; [reflexivity | now apply String.eqb_neq].
Qed.

Lemma retrieval_actions_raise (act : Action w) (matches : list string) :
  In act (retrieval_actions w) -> raises_only retrieval_error (act matches).
Proof.
  intros Hin. simpl in Hin.
  destruct Hin as [<-|[<-|[<-|[<-|[<-|[]]]]]].
  - unfold birth_date. apply raises_only_bind; [apply get_birth_date_raises | intros r; retrieval].
  - unfold polar_radius. destruct matches; [retrieval|].
    apply raises_only_bind; [apply get_polar_radius_raises | intros r; retrieval].
  - unfold city_pop. destruct (nothing_named matches) eqn:E; [retrieval|].
    destruct (named_first_token matches E) as [name [more [-> Hname]]].
    apply raises_only_bind; [now apply get_city_pop_raises | intros r; retrieval].
  - unfold city_coords. destruct (nothing_named matches) eqn:E; [retrieval|].
    destruct (named_first_token matches E) as [name [more [-> Hname]]].
    apply raises_only_bind; [now apply get_city_coords_raises | intros r; retrieval].
  - unfold city_country. destruct (nothing_named matches) eqn:E; [retrieval|].
    destruct (named_first_token matches E) as [name [more [-> Hname]]].
    apply raises_only_bind; [now apply get_city_country_raises | intros r; retrieval].
Qed.

End RetrievalErrors.

Lemma retrieval_error_not_caught (e : exn) : retrieval_error e -> caught e = false.
Proof. destruct e; simpl; intros H; (reflexivity || contradiction). Qed.

Lemma retrieval_error_not_value_error (e : exn) :
  retrieval_error e -> ~ is_value_error e.
Proof. intros H [msg ->]. exact H. Qed.

Lemma raises_only_weaken (w : World) (A : Type) (P Q : exn -> Prop) (m : M w A) :
  (forall e, P e -> Q e) -> raises_only P m -> raises_only Q m.
Proof. intros HPQ Hm s e s' H. apply HPQ. exact (Hm s e s' H). Qed.

(** ** The console loop *)

(** One iteration on a typed line. *)
Lemma loop_line (w : World) (mtch : Matcher) (pa : list (Pattern * Action w))
    (line : string) (rest : list console) (s : Session w) (out : list string) :
  loop mtch pa (Line line :: rest) s out =
  match search_pa_list mtch pa (tokens line) s with
  | (Ret answers, s') =>
      loop mtch pa rest s' ((out ++ [print ""; prompt]) ++ map print answers)
  | (Raise e, s') =>
      if caught e then so_long rest s' (out ++ [print ""; prompt])
      else {| status := Uncaught e; written := out ++ [print ""; prompt];
              unread := rest; session := s' |}
  end.
Proof. reflexivity. Qed.

(** C6: on the input ["bye"], matched by the termination template and by
    no earlier one, the action raises [KeyboardInterrupt] instead of
    returning a list; the dispatcher lets it through; the loop prints no
    answer for that query, reads no further input, prints the shutdown
    message and the process ends with success. *)
Theorem bye_stops_the_loop (w : World) (mtch : Matcher) (bound : list string)
    (rest : list console) (s : Session w) (out : list string) :
  none_match mtch ["bye"] (firstn 5 (pa_list w)) ->
  mtch ["bye"] ["bye"] = Some bound ->
  bye_action bound s = (Raise KeyboardInterrupt, s)
  /\ search_pa_list mtch (pa_list w) (tokens "bye") s = (Raise KeyboardInterrupt, s)
  /\ loop mtch (pa_list w) (Line "bye" :: rest) s out =
     {| status := ExitSuccess;
        written := out ++ [print ""; prompt; print (nl ++ "So long!" ++ nl)%string];
        unread := rest;
        session := s |}
  /\ query_loop mtch (pa_list w) (Line "bye" :: rest) s =
     {| status := ExitSuccess;
        written := [print ("Welcome to the information database!" ++ nl)%string;
                    print ""; prompt; print (nl ++ "So long!" ++ nl)%string];
        unread := rest;
        session := s |}.
Proof.
  intros Hnone Hbye.
  assert (search_pa_list mtch (pa_list w) (tokens "bye") s
          = (Raise KeyboardInterrupt, s)) as Hsearch.
  { pose proof (search_runs_first_match mtch (firstn 5 (pa_list w)) []
                  ["bye"] bye_action ["bye"] bound Hnone Hbye) as H.
    apply (f_equal (fun m => m s)) in H. exact H. }
  assert (forall out', loop mtch (pa_list w) (Line "bye" :: rest) s out' =
     {| status := ExitSuccess;
        written := out' ++ [print ""; prompt; print (nl ++ "So long!" ++ nl)%string];
        unread := rest;
        session := s |}) as Hloop.
  { intros out'. rewrite loop_line, Hsearch. simpl caught. cbv iota.
    unfold so_long. now rewrite <- app_assoc. }
  repeat split; [exact Hsearch | apply Hloop |].
  unfold query_loop. now rewrite Hloop.
Qed.

Lemma bye_stops_the_loop_witness :
  query_loop match_ (pa_list (sample_world true)) [Line "bye"; Line "hello"]
    (fresh (sample_world true) tt)
  = {| status := ExitSuccess;
       written := [print ("Welcome to the information database!" ++ nl)%string;
                   print ""; prompt; print (nl ++ "So long!" ++ nl)%string];
       unread := [Line "hello"];
       session := fresh (sample_world true) tt |}.
Proof.
  apply (bye_stops_the_loop (sample_world true) match_ [] [Line "hello"]
           (fresh (sample_world true) tt) []
           ltac:(repeat constructor) eq_refl).
Defined.

(** C7: when the action of the earliest matching entry is one of the
    fact-retrieval actions and its run fails with an exception, that
    exception is none the loop catches; [search_pa_list] ends with it, and
    so does the process: the loop prints neither an answer for the query
    nor the shutdown message and reads no further input. *)
Theorem retrieval_failure_is_fatal (w : World) (mtch : Matcher)
    (before later : list (Pattern * Action w)) (pat : Pattern) (act : Action w)
    (line : string) (rest : list console) (mat : list string)
    (s s' : Session w) (e : exn) (out : list string) :
  In act (retrieval_actions w) ->
  none_match mtch (tokens line) before ->
  mtch pat (tokens line) = Some mat ->
  act mat s = (Raise e, s') ->
  caught e = false
  /\ search_pa_list mtch (before ++ (pat, act) :: later) (tokens line) s
     = (Raise e, s')
  /\ loop mtch (before ++ (pat, act) :: later) (Line line :: rest) s out =
     {| status := Uncaught e;
        written := out ++ [print ""; prompt];
        unread := rest;
        session := s' |}
  /\ query_loop mtch (before ++ (pat, act) :: later) (Line line :: rest) s =
     {| status := Uncaught e;
        written := [print ("Welcome to the information database!" ++ nl)%string;
                    print ""; prompt];
        unread := rest;
        session := s' |}.
Proof.
  intros Hin Hnone Hm Hact.
  assert (caught e = false) as Hcaught.
  { apply retrieval_error_not_caught.
    exact (retrieval_actions_raise act mat Hin s e s' Hact). }
  assert (search_pa_list mtch (before ++ (pat, act) :: later) (tokens line) s
          = (Raise e, s')) as Hsearch.
  { rewrite (search_runs_first_match mtch before later pat act _ mat Hnone Hm).
    unfold bind. now rewrite Hact. }
  repeat split; try assumption.
  - now rewrite loop_line, Hsearch, Hcaught.
  - unfold query_loop. now rewrite loop_line, Hsearch, Hcaught.
Qed.

(** A page without infobox: the [LookupError] ends the process. *)
Lemma retrieval_failure_is_fatal_witness :
  query_loop match_ (pa_list (sample_world false))
    [Line "When was Marie Curie born?"; Line "bye"] (fresh (sample_world false) tt)
  = {| status := Uncaught (LookupError "Page has no infobox");
       written := [print ("Welcome to the information database!" ++ nl)%string;
                   print ""; prompt];
       unread := [Line "bye"];
       session := Build_Session (sample_world false) tt
                    [Search "marie curie"; FetchHtml "marie curie"] |}.
Proof.
  apply (retrieval_failure_is_fatal (sample_world false) match_
           [] (tl (pa_list (sample_world false)))
           (split "when was % born") birth_date
           "When was Marie Curie born?" [Line "bye"] ["marie"; "curie"]
           (fresh (sample_world false) tt)
           (Build_Session (sample_world false) tt
              [Search "marie curie"; FetchHtml "marie curie"])
           (LookupError "Page has no infobox") []
           (or_introl eq_refl) (Forall_nil _) eq_refl eq_refl).
Defined.

(** ** City questions *)

Section CityGuards.
Context {w : World}.

Lemma guards_intro (action : Action w) (getter : string -> M w string) :
  (forall matches, action matches =
     if nothing_named matches then ret ["No city specified"]
     else r <- getter (hd "" matches) ;; ret [r]) ->
  (forall name, name <> "" -> raises_only retrieval_error (getter name)) ->
  guards action getter.
Proof.
  intros Hdef Hget matches. rewrite Hdef.
  destruct (nothing_named matches) eqn:E.
  - left. split; [reflexivity | intros s; reflexivity].
  - right. destruct (named_first_token matches E) as [name [more [-> Hname]]].
    exists name, more. repeat split; try assumption.
    + apply raises_only_weaken with (P := retrieval_error);
        [apply retrieval_error_not_value_error | now apply Hget].
    + apply raises_only_weaken with (P := retrieval_error);
        [apply retrieval_error_not_value_error|].
      apply raises_only_bind; [now apply Hget | intros r; retrieval].
Qed.

End CityGuards.

(** C8: the tokens of ["what is the population of"] are its five words;
    the population template matches them with an empty binding; the
    dispatcher answers [["No city specified"]] and the session, with its
    log of requests, is as before: nothing was retrieved; the loop prints
    that answer and goes on.  [city_pop] answers so for the empty binding
    and for every binding whose first token is the empty string. *)
Theorem empty_city_is_not_looked_up (w : World) (s : Session w) :
  tokens "what is the population of" = ["what"; "is"; "the"; "population"; "of"]
  /\ match_ (split "what is the population of %")
       (tokens "what is the population of") = Some []
  /\ search_pa_list match_ (pa_list w) (tokens "what is the population of") s
     = (Ret ["No city specified"], s)
  /\ (forall (rest : list console) (out : list string),
        loop match_ (pa_list w) (Line "what is the population of" :: rest) s out
        = loop match_ (pa_list w) rest s
            ((out ++ [print ""; prompt]) ++ [print "No city specified"]))
  /\ city_pop [] s = (Ret ["No city specified"], s)
  /\ forall more : list string,
       city_pop ("" :: more) s = (Ret ["No city specified"], s).
Proof.
  assert (search_pa_list match_ (pa_list w) (tokens "what is the population of") s
          = (Ret ["No city specified"], s)) as Hsearch by reflexivity.
  split; [reflexivity|]. split; [reflexivity|]. split; [exact Hsearch|].
  split; [|split; [reflexivity | intros more; reflexivity]].
  intros rest out. now rewrite loop_line, Hsearch.
Qed.

(** C10: each of [city_pop], [city_coords] and [city_country] either
    answers [["No city specified"]] without calling its getter, when the
    binding is empty or starts with the empty string, or calls the getter
    on the first token, which is then not empty; so no run of the getter
    started by the action, and no run of the action, raises the
    [ValueError] of the getter's empty-name branch. *)
Theorem city_getters_never_see_empty_name (w : World) :
  guards (w := w) city_pop get_city_pop
  /\ guards (w := w) city_coords get_city_coords
  /\ guards (w := w) city_country get_city_country.
Proof.
  repeat split; apply guards_intro; intros; try reflexivity.
  - now apply get_city_pop_raises.
  - now apply get_city_coords_raises.
  - now apply get_city_country_raises.
Qed.

(** ** Scenarios *)

(** The birth-date question, from the typed line to the answer. *)
Example marie_curie_scenario :
  tokens "when was Marie Curie born?" = ["when"; "was"; "marie"; "curie"; "born"]
  /\ match_ (split "when was % born") (tokens "when was Marie Curie born?")
     = Some ["marie"; "curie"]
  /\ join " " ["marie"; "curie"] = "marie curie"
  /\ fst (search_pa_list match_ (pa_list (sample_world true))
            (tokens "when was Marie Curie born?") (fresh (sample_world true) tt))
     = Ret ["1867-11-07"].
Proof. repeat split; reflexivity. Qed.

(** A session: an answer, an unknown question, a city question without
    city, then the end of input. *)
Example session_scenario :
  let run := query_loop match_ (pa_list (sample_world true))
               [Line "When was Marie Curie born?"; Line "hello";
                Line "What is the population of?"]
               (fresh (sample_world true) tt) in
  status run = ExitSuccess
  /\ written run =
     [print ("Welcome to the information database!" ++ nl)%string;
      print ""; prompt; print "1867-11-07";
      print ""; prompt; print "I don't understand";
      print ""; prompt; print "No city specified";
      print ""; prompt; print (nl ++ "So long!" ++ nl)%string]
  /\ requests (session run) = [Search "marie curie"; FetchHtml "marie curie"].
Proof. repeat split; reflexivity. Qed.

(** A planet question without planet indexes an empty binding. *)
Example polar_radius_of_nothing :
  status (query_loop match_ (pa_list (sample_world true))
            [Line "what is the polar radius of"] (fresh (sample_world true) tt))
  = Uncaught IndexError.
Proof. reflexivity. Qed.

(** * Further properties *)

(** ** More on [clean_text] *)

Lemma map_chars_length (f : ascii -> ascii) (s : string) :
  String.length (map_chars f s) = String.length s.
Proof. induction s as [|c s IH]; simpl; congruence. Qed.

Lemma squeeze_length (d : ascii) (s : string) :
  String.length (squeeze d s) <= String.length s.
Proof.
  induction s as [|c s IH]; simpl; [lia|].
  destruct (Ascii.eqb c d && starts_with d s); simpl; lia.
Qed.

Lemma squeeze_not_empty (d c : ascii) (s : string) :
  squeeze d (String c s) <> EmptyString.
Proof.
  intros H.
  pose proof (starts_with_squeeze d c (String c s)) as Hhead.
  rewrite H in Hhead. simpl in Hhead. now rewrite Ascii.eqb_refl in Hhead.
Qed.

Lemma filter_chars_squeeze (p : ascii -> bool) (d : ascii) (s : string) :
  p d = false -> filter_chars p (squeeze d s) = filter_chars p s.
Proof.
  intros Hd. induction s as [|c s IH]; [reflexivity|].
  simpl. destruct (Ascii.eqb c d && starts_with d s) eqn:E.
  - apply andb_true_iff in E as [Ec _]. apply Ascii.eqb_eq in Ec. subst c.
    now rewrite Hd.
  - simpl. now rewrite IH.
Qed.

Lemma filter_visible_only_printable (s : string) :
  filter_chars visible (map_chars (fun c => if printable c then c else space) s)
  = filter_chars visible s.
Proof.
  induction s as [|c s IH]; [reflexivity|].
  simpl. rewrite IH. destruct (printable c) eqn:E; [reflexivity|].
  assert (visible c = false) as Hc by (unfold visible; now rewrite E).
  rewrite Hc. reflexivity.
Qed.

(** X1: a text is left as it is by [clean_text] exactly when it is already
    clean: only printable characters, no two adjacent spaces and no two
    adjacent newlines. *)
Theorem clean_text_fixed_points (s : string) :
  clean_text s = s <->
  all_chars printable s = true /\ no_run space s = true /\ no_run newline s = true.
Proof.
  split.
  - intros H. rewrite <- H.
    repeat split;
      [apply clean_text_printable | apply clean_text_no_spaces_run
       | apply clean_text_no_newlines_run].
  - intros [Hp [Hs Hn]]. unfold clean_text.
    now rewrite (only_printable_fixed s Hp), (squeeze_fixed space s Hs),
      (squeeze_fixed newline s Hn).
Qed.

(** X2: [clean_text] never lengthens a text, and its result is empty only
    for the empty text. *)
Theorem clean_text_length (s : string) :
  String.length (clean_text s) <= String.length s
  /\ (clean_text s = EmptyString <-> s = EmptyString).
Proof.
  split.
  - unfold clean_text.
    etransitivity; [apply squeeze_length|].
    etransitivity; [apply squeeze_length|].
    now rewrite map_chars_length.
  - split; [|intros ->; reflexivity].
    destruct s as [|c s]; [reflexivity|]. unfold clean_text. simpl map_chars.
    intros H. exfalso.
    destruct (squeeze space
                (String (if printable c then c else space)
                   (map_chars (fun char => if printable char then char else space) s)))
      as [|c' s'] eqn:E.
    + now apply squeeze_not_empty in E.
    + now apply squeeze_not_empty in H.
Qed.

(** X3: [clean_text] keeps the printable characters other than spaces and
    newlines, all of them and in their order, and adds none: only spaces,
    newlines and unprintable characters are touched. *)
Theorem clean_text_keeps_visible (s : string) :
  filter_chars visible (clean_text s) = filter_chars visible s.
Proof.
  unfold clean_text.
  rewrite !filter_chars_squeeze by reflexivity.
  apply filter_visible_only_printable.
Qed.

(** ** More on the tokens *)

Lemma all_chars_app (p : ascii -> bool) (s t : string) :
  all_chars p (s ++ t)%string = all_chars p s && all_chars p t.
Proof.
  induction s as [|c s IH]; [reflexivity|].
  simpl. now rewrite IH, andb_assoc.
Qed.

Lemma all_chars_map (p : ascii -> bool) (f : ascii -> ascii) (s : string) :
  (forall c, p (f c) = true) -> all_chars p (map_chars f s) = true.
Proof.
  intros H. induction s as [|c s IH]; [reflexivity|]. simpl. now rewrite H, IH.
Qed.

Lemma emit_all (p : ascii -> bool) (word : string) :
  all_chars p word = true ->
  Forall (fun t => all_chars p t = true) (emit word).
Proof.
  intros H. destruct word; simpl; [constructor|]. constructor; [exact H | constructor].
Qed.

(** What holds of every character of the text holds of every character
    of each token. *)
Lemma split_from_all (p : ascii -> bool) (s word : string) :
  all_chars p word = true -> all_chars p s = true ->
  Forall (fun t => all_chars p t = true) (split_from word s).
Proof.
  revert word. induction s as [|c s IH]; intros word Hw Hs; simpl.
  - now apply emit_all.
  - simpl in Hs. apply andb_true_iff in Hs as [Hc Hs].
    destruct (isspace c).
    + apply Forall_app. split; [now apply emit_all | now apply IH].
    + apply IH; [|exact Hs]. rewrite all_chars_app. simpl. now rewrite Hw, Hc.
Qed.

Lemma emit_words (word : string) :
  all_chars not_blank word = true ->
  Forall (fun t => is_word t = true) (emit word).
Proof.
  intros H. destruct word as [|c word]; simpl; [constructor|].
  constructor; [|constructor]. unfold is_word. now rewrite H.
Qed.

Lemma split_from_words (s word : string) :
  all_chars not_blank word = true ->
  Forall (fun t => is_word t = true) (split_from word s).
Proof.
  revert word. induction s as [|c s IH]; intros word Hw; simpl.
  - now apply emit_words.
  - destruct (isspace c) eqn:Ec.
    + apply Forall_app. split; [now apply emit_words | now apply IH].
    + apply IH. rewrite all_chars_app. simpl. unfold not_blank at 2.
      now rewrite Hw, Ec.
Qed.

Lemma lower_char_idempotent (c : ascii) : is_lower_char (lower_char c) = true.
Proof.
  destruct c as [b0 b1 b2 b3 b4 b5 b6 b7].
  destruct b0, b1, b2, b3, b4, b5, b6, b7; reflexivity.
Qed.

Lemma lower_fixed (t : string) : all_chars is_lower_char t = true -> lower t = t.
Proof.
  induction t as [|c t IH]; [reflexivity|].
  simpl. intros H. apply andb_true_iff in H as [Hc Ht].
  apply Ascii.eqb_eq in Hc. unfold lower in *. simpl. now rewrite Hc, IH.
Qed.

(** X4: every token the query loop hands to the dispatcher is a word, not
    empty and without blank, and is in lower case. *)
Theorem tokens_are_lower_case_words (line : string) :
  Forall (fun t => t <> "" /\ all_chars not_blank t = true /\ lower t = t)
    (tokens line).
Proof.
  pose proof (split_from_words (lower (replace_with_empty question_mark line))
                EmptyString eq_refl) as Hwords.
  pose proof (split_from_all is_lower_char
                (lower (replace_with_empty question_mark line)) EmptyString eq_refl
                (all_chars_map _ _ _ lower_char_idempotent)) as Hlower.
  fold (split (lower (replace_with_empty question_mark line))) in Hwords, Hlower.
  fold (tokens line) in Hwords, Hlower.
  rewrite Forall_forall in *. intros t Hin.
  specialize (Hwords t Hin). specialize (Hlower t Hin).
  unfold is_word in Hwords. apply andb_true_iff in Hwords as [Hne Hnb].
  repeat split; [|exact Hnb | now apply lower_fixed].
  intros ->. discriminate.
Qed.

Lemma split_from_word_prefix (t s word : string) :
  all_chars not_blank t = true ->
  split_from word (t ++ s)%string = split_from (word ++ t)%string s.
Proof.
  revert word. induction t as [|c t IH]; intros word Ht; simpl.
  - f_equal. induction word as [|c word IHw]; simpl; congruence.
  - simpl in Ht. apply andb_true_iff in Ht as [Hc Ht].
    unfold not_blank in Hc. apply negb_true_iff in Hc. rewrite Hc.
    rewrite (IH _ Ht). f_equal.
    induction word as [|c' word IHw]; simpl; congruence.
Qed.

Lemma split_word (t : string) : is_word t = true -> split t = [t].
Proof.
  intros H. unfold is_word in H. apply andb_true_iff in H as [Hne Hnb].
  unfold split.
  replace t with (t ++ "")%string at 1
    by (clear; induction t as [|c t IH]; simpl; congruence).
  rewrite (split_from_word_prefix t "" "" Hnb). simpl.
  destruct t; [discriminate | reflexivity].
Qed.

(** X6: joining words with single spaces, as [birth_date] does with its
    binding, and splitting the result gives the words back. *)
Theorem split_join_round_trip (matches : list string) :
  Forall (fun t => is_word t = true) matches ->
  split (join " " matches) = matches.
Proof.
  induction 1 as [|t rest Ht Hrest IH]; [reflexivity|].
  destruct rest as [|t' rest']; [now apply split_word|].
  change (join " " (t :: t' :: rest'))
    with (t ++ String space (join " " (t' :: rest')))%string.
  unfold is_word in Ht. apply andb_true_iff in Ht as [Hne Hnb].
  unfold split at 1. rewrite (split_from_word_prefix t _ "" Hnb).
  change (split_from ("" ++ t) (String space (join " " (t' :: rest'))))
    with (emit t ++ split (join " " (t' :: rest'))).
  rewrite IH. destruct t; [discriminate | reflexivity].
Qed.

Lemma split_join_round_trip_witness :
  split (join " " (tokens "When was  Marie Curie born?"))
  = tokens "When was  Marie Curie born?".
Proof.
  apply (split_join_round_trip (tokens "When was  Marie Curie born?")).
  vm_compute. repeat constructor.
Defined.

(** ** More on the dispatcher *)

(** Either no entry matches, or there is a first one that does. *)
Lemma search_cases (w : World) (mtch : Matcher) (pa : list (Pattern * Action w))
    (src : list string) :
  none_match mtch src pa
  \/ exists before pat act later mat,
       pa = before ++ (pat, act) :: later
       /\ none_match mtch src before
       /\ mtch pat src = Some mat.
Proof.
  induction pa as [|[pat act] pa IH]; [left; constructor|].
  destruct (mtch pat src) as [mat|] eqn:E.
  - right. exists [], pat, act, pa, mat. repeat split; [constructor | exact E].
  - destruct IH as [Hnone | [before [pat' [act' [later [mat [-> [Hnone Hm]]]]]]]].
    + left. constructor; assumption.
    + right. exists ((pat, act) :: before), pat', act', later, mat.
      repeat split; [constructor; assumption | exact Hm].
Qed.

Lemma search_none (w : World) (mtch : Matcher) (pa : list (Pattern * Action w))
    (src : list string) :
  none_match mtch src pa -> search_pa_list mtch pa src = ret ["I don't understand"].
Proof.
  intros Hnone.
  rewrite <- (app_nil_r pa), (search_skips_non_matching mtch pa [] src Hnone).
  reflexivity.
Qed.

(** X7: whatever the matcher and the registry, a list [search_pa_list]
    returns is never empty, so the loop prints at least one line for every
    query that is answered. *)
Theorem search_pa_list_never_empty (w : World) (mtch : Matcher)
    (pa : list (Pattern * Action w)) (src answers : list string)
    (s s' : Session w) :
  search_pa_list mtch pa src s = (Ret answers, s') -> answers <> [].
Proof.
  destruct (search_cases w mtch pa src)
    as [Hnone | [before [pat [act [later [mat [-> [Hnone Hm]]]]]]]].
  - rewrite (search_none w mtch pa src Hnone). unfold ret. intros H.
    injection H as <- _. discriminate.
  - rewrite (search_runs_first_match mtch before later pat act src mat Hnone Hm).
    unfold bind, ret. destruct (act mat s) as [[[|a answer]|e] s0]; intros H;
      [injection H as <- _ | injection H as <- _ | ]; discriminate.
Qed.

Lemma search_pa_list_never_empty_witness :
  ["No answers"] <> [].
Proof.
  apply (search_pa_list_never_empty (sample_world true) match_
           ((["%"], no_answer) :: pa_list (sample_world true))
           (tokens "Anything at all?") ["No answers"]
           (fresh (sample_world true) tt) (fresh (sample_world true) tt)).
  reflexivity.
Defined.

(** X8: [search_pa_list] raises nothing of its own: an exception it ends
    with was raised by the action of the first matching entry, run on the
    binding of that match, and the session is the one that action left. *)
Theorem search_pa_list_raises_from_action (w : World) (mtch : Matcher)
    (pa : list (Pattern * Action w)) (src : list string) (e : exn)
    (s s' : Session w) :
  search_pa_list mtch pa src s = (Raise e, s') ->
  exists before pat act later mat,
    pa = before ++ (pat, act) :: later
    /\ none_match mtch src before
    /\ mtch pat src = Some mat
    /\ act mat s = (Raise e, s').
Proof.
  destruct (search_cases w mtch pa src)
    as [Hnone | [before [pat [act [later [mat [-> [Hnone Hm]]]]]]]].
  - rewrite (search_none w mtch pa src Hnone). discriminate.
  - rewrite (search_runs_first_match mtch before later pat act src mat Hnone Hm).
    intros H. exists before, pat, act, later, mat.
    repeat split; try assumption.
    unfold bind, ret in H. destruct (act mat s) as [[answer|e0] s0];
      [discriminate | exact H].
Qed.

Lemma search_pa_list_raises_from_action_witness :
  exists before pat act later mat,
    pa_list (sample_world false) = before ++ (pat, act) :: later
    /\ none_match match_ (tokens "When was Marie Curie born?") before
    /\ match_ pat (tokens "When was Marie Curie born?") = Some mat
    /\ act mat (fresh (sample_world false) tt)
       = (Raise (LookupError "Page has no infobox"),
          Build_Session (sample_world false) tt
            [Search "marie curie"; FetchHtml "marie curie"]).
Proof.
  apply (search_pa_list_raises_from_action (sample_world false) match_
           (pa_list (sample_world false)) (tokens "When was Marie Curie born?")).
  reflexivity.
Defined.

Lemma bind_single (w : World) (m : M w string) (answers : list string)
    (s s' : Session w) :
  (r <- m ;; ret [r]) s = (Ret answers, s') -> length answers = 1.
Proof.
  unfold bind, ret. destruct (m s) as [[r|e] s0]; [|discriminate].
  intros H. injection H as <- _. reflexivity.
Qed.

(** Every action of the program's registry answers with one string. *)
Lemma pa_list_actions_single (w : World) (pat : Pattern) (act : Action w)
    (mat answers : list string) (s s' : Session w) :
  In (pat, act) (pa_list w) -> act mat s = (Ret answers, s') -> length answers = 1.
Proof.
  intros Hin. simpl in Hin.
  destruct Hin as [H|[H|[H|[H|[H|[H|[]]]]]]]; injection H as _ <-.
  - apply bind_single.
  - unfold polar_radius. destruct mat; [discriminate | apply bind_single].
  - unfold city_pop. destruct (nothing_named mat); [|apply bind_single].
    unfold ret. intros H. injection H as <- _. reflexivity.
  - unfold city_coords. destruct (nothing_named mat); [|apply bind_single].
    unfold ret. intros H. injection H as <- _. reflexivity.
  - unfold city_country. destruct (nothing_named mat); [|apply bind_single].
    unfold ret. intros H. injection H as <- _. reflexivity.
  - discriminate.
Qed.

(** X9: with the registry of the program, whatever the matcher and the
    knowledge source, a list [search_pa_list] returns holds exactly one
    answer: either ["I don't understand"], no entry matching and the
    session untouched, or the very list the matched action returned.  The
    replacement by ["No answers"] never happens there. *)
Theorem pa_list_answers_once (w : World) (mtch : Matcher)
    (src answers : list string) (s s' : Session w) :
  search_pa_list mtch (pa_list w) src s = (Ret answers, s') ->
  length answers = 1
  /\ ((answers = ["I don't understand"] /\ s' = s
       /\ none_match mtch src (pa_list w))
      \/ exists pat act mat,
           In (pat, act) (pa_list w)
           /\ mtch pat src = Some mat
           /\ act mat s = (Ret answers, s')).
Proof.
  destruct (search_cases w mtch (pa_list w) src)
    as [Hnone | [before [pat [act [later [mat [Hpa [Hnone Hm]]]]]]]].
  - rewrite (search_none w mtch _ src Hnone). unfold ret. intros H.
    injection H as <- <-. split; [reflexivity | left; now repeat split].
  - assert (In (pat, act) (pa_list w)) as Hin
      by (rewrite Hpa; apply in_elt).
    rewrite Hpa, (search_runs_first_match mtch before later pat act src mat Hnone Hm).
    unfold bind, ret. destruct (act mat s) as [[answer|e] s0] eqn:E; [|discriminate].
    pose proof (pa_list_actions_single w pat act mat answer s s0 Hin E) as Hlen.
    destruct answer as [|a answer]; [discriminate|].
    intros H. injection H as <- <-. split; [exact Hlen|].
    right. exists pat, act, mat.
    repeat split; [apply in_elt | exact Hm | exact E].
Qed.

Lemma pa_list_answers_once_witness :
  length ["1867-11-07"] = 1
  /\ ((["1867-11-07"] = ["I don't understand"]
       /\ Build_Session (sample_world true) tt
            [Search "marie curie"; FetchHtml "marie curie"]
          = fresh (sample_world true) tt
       /\ none_match match_ (tokens "When was Marie Curie born?")
            (pa_list (sample_world true)))
      \/ exists pat act mat,
           In (pat, act) (pa_list (sample_world true))
           /\ match_ pat (tokens "When was Marie Curie born?") = Some mat
           /\ act mat (fresh (sample_world true) tt)
              = (Ret ["1867-11-07"],
                 Build_Session (sample_world true) tt
                   [Search "marie curie"; FetchHtml "marie curie"])).
Proof.
  apply (pa_list_answers_once (sample_world true) match_
           (tokens "When was Marie Curie born?")).
  reflexivity.
Defined.

(** X10: [polar_radius], [city_pop], [city_coords] and [city_country] look
    at the first token of the binding only: two bindings with the same
    first token (or both empty) give the same run, so the words after the
    first one of a name are dropped. *)
Theorem subject_is_first_token (w : World) (m1 m2 : list string) (s : Session w) :
  hd_error m1 = hd_error m2 ->
  polar_radius m1 s = polar_radius m2 s
  /\ city_pop m1 s = city_pop m2 s
  /\ city_coords m1 s = city_coords m2 s
  /\ city_country m1 s = city_country m2 s.
Proof.
  destruct m1 as [|t1 m1], m2 as [|t2 m2]; simpl; intros H;
    try discriminate; [now repeat split|].
  injection H as ->. now repeat split.
Qed.

Lemma subject_is_first_token_witness :
  polar_radius ["new"; "york"] (fresh (sample_world true) tt)
  = polar_radius ["new"] (fresh (sample_world true) tt)
  /\ city_pop ["new"; "york"] (fresh (sample_world true) tt)
     = city_pop ["new"] (fresh (sample_world true) tt)
  /\ city_coords ["new"; "york"] (fresh (sample_world true) tt)
     = city_coords ["new"] (fresh (sample_world true) tt)
  /\ city_country ["new"; "york"] (fresh (sample_world true) tt)
     = city_country ["new"] (fresh (sample_world true) tt).
Proof.
  apply (subject_is_first_token (sample_world true) ["new"; "york"] ["new"]).
  reflexivity.
Defined.

(** ** The getters: how they fail *)

Section GetterErrors.
Context {w : World}.
Variable error_text : string.

Lemma get_page_html_errors (title : string) :
  raises_only (getter_error error_text) (get_page_html (w := w) title).
Proof.
  unfold get_page_html. apply raises_only_bind; [retrieval|].
  intros [|first results]; retrieval.
Qed.

Lemma get_first_infobox_text_errors (html : string) :
  raises_only (getter_error error_text) (get_first_infobox_text (w := w) html).
Proof.
  unfold get_first_infobox_text. destruct (infobox_texts w html).
  - apply raises_only_raise. reflexivity.
  - apply raises_only_ret.
Qed.

Lemma get_match_errors (text pattern : string) :
  raises_only (getter_error error_text) (get_match (w := w) text pattern error_text).
Proof.
  unfold get_match. destruct (re_search w pattern text).
  - apply raises_only_ret.
  - apply raises_only_raise. reflexivity.
Qed.

(** The shape all getters share after their guard. *)
Lemma extraction_errors (title pattern : string) (key : group_ref) :
  raises_only (getter_error error_text)
    (html <- get_page_html (w := w) title ;;
     box <- get_first_infobox_text html ;;
     m <- get_match (clean_text box) pattern error_text ;;
     ret (group w m key)).
Proof.
  apply raises_only_bind; [apply get_page_html_errors | intros html].
  apply raises_only_bind; [apply get_first_infobox_text_errors | intros box].
  apply raises_only_bind; [apply get_match_errors | intros m].
  apply raises_only_ret.
Qed.

End GetterErrors.

(** X11: the exceptions of the getters.  Each one fails only with
    [IndexError] (the search found no title), an exception of the library,
    [LookupError] with the text "Page has no infobox", or
    [AttributeError] with the getter's own message; a city getter given
    the empty name does raise [ValueError] with "City name must be
    provided", at once and with the session as it was, and given another
    name never raises it. *)
Theorem getters_error_contract (w : World) (name : string) :
  raises_only (getter_error "Page infobox has no polar radius information")
    (get_polar_radius (w := w) name)
  /\ raises_only
       (getter_error
          "Page infobox has no birth information (at least none in xxxx-xx-xx format)")
       (get_birth_date (w := w) name)
  /\ raises_only
       (city_getter_error name "Page infobox has no population information")
       (get_city_pop (w := w) name)
  /\ raises_only
       (city_getter_error name "Page infobox has no coordinates information")
       (get_city_coords (w := w) name)
  /\ raises_only
       (city_getter_error name "Page infobox has no country information")
       (get_city_country (w := w) name)
  /\ (forall s : Session w,
        get_city_pop "" s = (Raise (ValueError "City name must be provided"), s)
        /\ get_city_coords "" s
           = (Raise (ValueError "City name must be provided"), s)
        /\ get_city_country "" s
           = (Raise (ValueError "City name must be provided"), s)).
Proof.
  split; [apply extraction_errors|].
  split; [apply extraction_errors|].
  split; [|split; [|split]].
  - unfold get_city_pop, city_getter_error. destruct (String.eqb name "");
      [apply raises_only_raise; reflexivity | apply extraction_errors].
  - unfold get_city_coords, city_getter_error. destruct (String.eqb name "");
      [apply raises_only_raise; reflexivity | apply extraction_errors].
  - unfold get_city_country, city_getter_error. destruct (String.eqb name "");
      [apply raises_only_raise; reflexivity | apply extraction_errors].
  - intros s. repeat split.
Qed.

(** ** The getters: what they request *)

Section Requests.
Context {w : World}.

Lemma quiet_ret (A : Type) (a : A) : quiet (ret (w := w) a).
Proof. intros s. split; [reflexivity | discriminate]. Qed.

Lemma quiet_raise (A : Type) (e : exn) :
  ~ is_value_error e -> quiet (raise (w := w) (A := A) e).
Proof.
  intros He s. split; [reflexivity|]. simpl. intros msg H.
  injection H as ->. apply He. now exists msg.
Qed.

Lemma quiet_bind (A B : Type) (m : M w A) (k : A -> M w B) :
  quiet m -> (forall a, quiet (k a)) -> quiet (bind m k).
Proof.
  intros Hm Hk s. unfold bind. destruct (Hm s) as [Hs Hv].
  destruct (m s) as [[a|e] s0]; simpl in *; subst s0.
  - apply Hk.
  - split; [reflexivity|]. intros msg H. injection H as ->.
    now apply (Hv msg).
Qed.

Lemma quiet_get_first_infobox_text (html : string) :
  quiet (get_first_infobox_text (w := w) html).
Proof.
  unfold get_first_infobox_text. destruct (infobox_texts w html).
  - apply quiet_raise. intros [msg H]. discriminate.
  - apply quiet_ret.
Qed.

Lemma quiet_get_match (text pattern error_text : string) :
  quiet (get_match (w := w) text pattern error_text).
Proof.
  unfold get_match. destruct (re_search w pattern text).
  - apply quiet_ret.
  - apply quiet_raise. intros [msg H]. discriminate.
Qed.

Lemma get_page_html_sends (title : string) :
  sends (lookup_requests title) (get_page_html (w := w) title).
Proof.
  intros s. unfold get_page_html, bind, call.
  destruct (wikipedia_search w title (world s)) as [[cls|[|first results]] n1].
  - exists [Search title]. split; [reflexivity | now left].
  - exists [Search title]. split; [reflexivity | now left].
  - simpl.
    destruct (WikipediaPage_html w first n1) as [[cls|html] n2];
      exists [Search title; FetchHtml first]; simpl;
      (split; [now rewrite <- app_assoc|]).
    + right. now exists first.
    + now exists first.
Qed.

(** After a lookup, a quiet continuation changes nothing of what was
    sent. *)
Lemma lookup_then_quiet (A B : Type) (title : string) (m : M w A)
    (k : A -> M w B) :
  sends (lookup_requests title) m -> (forall a, quiet (k a)) ->
  sends (lookup_requests title) (bind m k).
Proof.
  intros Hm Hk s. destruct (Hm s) as [l [Hl HP]]. exists l.
  unfold bind. destruct (m s) as [[a|e] s1]; simpl in *; [|now split].
  destruct (Hk a s1) as [Hs Hv]. rewrite Hs. split; [exact Hl|].
  destruct (fst (k a s1)) as [b|e]; [exact HP|].
  destruct e; try (now right). exfalso. now apply (Hv msg).
Qed.

Lemma extraction_sends (title pattern error_text : string) (key : group_ref) :
  sends (lookup_requests title)
    (html <- get_page_html (w := w) title ;;
     box <- get_first_infobox_text html ;;
     m <- get_match (clean_text box) pattern error_text ;;
     ret (group w m key)).
Proof.
  apply lookup_then_quiet; [apply get_page_html_sends | intros html].
  apply quiet_bind; [apply quiet_get_first_infobox_text | intros box].
  apply quiet_bind; [apply quiet_get_match | intros m]. apply quiet_ret.
Qed.

Lemma refusal_sends (A : Type) (title msg : string) :
  sends (lookup_requests title) (raise (w := w) (A := A) (ValueError msg)).
Proof. intros s. exists []. split; [now rewrite app_nil_r | reflexivity]. Qed.

End Requests.

(** X12: what a getter sends to the knowledge source.  [get_page_html]
    and each getter add to the log of requests: the search for the name and
    the fetch of one page when they return a result; only the search, or
    the search and one fetch, when they fail; and nothing at all when a
    city getter refuses the empty name.  No run sends more than these two
    requests, and the search always comes first. *)
Theorem getters_requests (w : World) (name : string) :
  sends (lookup_requests name) (get_page_html (w := w) name)
  /\ sends (lookup_requests name) (get_polar_radius (w := w) name)
  /\ sends (lookup_requests name) (get_birth_date (w := w) name)
  /\ sends (lookup_requests name) (get_city_pop (w := w) name)
  /\ sends (lookup_requests name) (get_city_coords (w := w) name)
  /\ sends (lookup_requests name) (get_city_country (w := w) name).
Proof.
  split; [apply get_page_html_sends|].
  split; [apply extraction_sends|].
  split; [apply extraction_sends|].
  repeat split.
  - unfold get_city_pop. destruct (String.eqb name "");
      [apply refusal_sends | apply extraction_sends].
  - unfold get_city_coords. destruct (String.eqb name "");
      [apply refusal_sends | apply extraction_sends].
  - unfold get_city_country. destruct (String.eqb name "");
      [apply refusal_sends | apply extraction_sends].
Qed.

(** ** Requests per query and per run *)

Section QueryRequests.
Context {w : World}.

Lemma sends_weaken (A : Type) (P Q : outcome A -> list request -> Prop)
    (m : M w A) :
  (forall r l, P r l -> Q r l) -> sends P m -> sends Q m.
Proof.
  intros HPQ Hm s. destruct (Hm s) as [l [Hl HP]]. exists l. split; auto.
Qed.

Lemma lookup_is_one (A : Type) (title : string) (r : outcome A) (l : list request) :
  lookup_requests title r l -> one_lookup l.
Proof.
  unfold lookup_requests, one_lookup. destruct r as [a|e].
  - intros [first ->]. right. exists title. right. now exists first.
  - destruct e; intros H;
      try (destruct H as [->|[first ->]];
           [right; exists title; now left
           | right; exists title; right; now exists first]).
    left. exact H.
Qed.

Lemma one_lookup_length (l : list request) : one_lookup l -> length l <= 2.
Proof.
  intros [->|[title [->|[first ->]]]]; simpl; lia.
Qed.

Lemma silent_sends (A : Type) (m : M w A) :
  (forall s, snd (m s) = s) -> sends (fun _ l => one_lookup l) m.
Proof.
  intros H s. exists []. rewrite H, app_nil_r. split; [reflexivity | now left].
Qed.

(** An action that wraps the result of a getter. *)
Lemma wrapped_getter_sends (title : string) (getter : M w string) :
  sends (lookup_requests title) getter ->
  sends (fun _ l => one_lookup l) (r <- getter ;; ret [r]).
Proof.
  intros H. apply sends_weaken with (P := lookup_requests title).
  - intros r l. apply lookup_is_one.
  - apply lookup_then_quiet; [exact H | intros r; apply quiet_ret].
Qed.

Lemma city_getter_sends (name pattern error_text : string) (key : group_ref) :
  sends (lookup_requests name)
    (if String.eqb name "" then raise (ValueError "City name must be provided")
     else
       html <- get_page_html (w := w) name ;;
       box <- get_first_infobox_text html ;;
       m <- get_match (clean_text box) pattern error_text ;;
       ret (group w m key)).
Proof.
  destruct (String.eqb name ""); [apply refusal_sends | apply extraction_sends].
Qed.

Lemma pa_list_actions_send (pat : Pattern) (act : Action w) (mat : list string) :
  In (pat, act) (pa_list w) -> sends (fun _ l => one_lookup l) (act mat).
Proof.
  intros Hin. simpl in Hin.
  destruct Hin as [H|[H|[H|[H|[H|[H|[]]]]]]]; injection H as _ <-.
  - apply wrapped_getter_sends with (title := join " " mat). apply extraction_sends.
  - unfold polar_radius. destruct mat as [|first mat].
    + now apply silent_sends.
    + apply wrapped_getter_sends with (title := first). apply extraction_sends.
  - unfold city_pop. destruct (nothing_named mat); [now apply silent_sends|].
    apply wrapped_getter_sends with (title := hd "" mat). apply city_getter_sends.
  - unfold city_coords. destruct (nothing_named mat); [now apply silent_sends|].
    apply wrapped_getter_sends with (title := hd "" mat). apply city_getter_sends.
  - unfold city_country. destruct (nothing_named mat); [now apply silent_sends|].
    apply wrapped_getter_sends with (title := hd "" mat). apply city_getter_sends.
  - now apply silent_sends.
Qed.

Lemma search_pa_list_sends (mtch : Matcher) (src : list string) :
  sends (fun _ l => one_lookup l) (search_pa_list mtch (pa_list w) src).
Proof.
  destruct (search_cases w mtch (pa_list w) src)
    as [Hnone | [before [pat [act [later [mat [Hpa [Hnone Hm]]]]]]]].
  - rewrite (search_none w mtch _ src Hnone). now apply silent_sends.
  - assert (In (pat, act) (pa_list w)) as Hin by (rewrite Hpa; apply in_elt).
    rewrite Hpa, (search_runs_first_match mtch before later pat act src mat Hnone Hm).
    intros s. destruct (pa_list_actions_send pat act mat Hin s) as [l [Hl Hone]].
    exists l. unfold bind. destruct (act mat s) as [[answer|e] s1]; simpl in *;
      now split.
Qed.

Lemma loop_requests (mtch : Matcher) (stdin : list console) :
  forall (s : Session w) (out : list string),
  exists read l,
    stdin = read ++ unread (loop mtch (pa_list w) stdin s out)
    /\ requests (session (loop mtch (pa_list w) stdin s out)) = requests s ++ l
    /\ length l <= 2 * length read.
Proof.
  induction stdin as [|[text|] rest IH]; intros s out.
  - exists [], []. simpl. now rewrite app_nil_r.
  - rewrite loop_line.
    destruct (search_pa_list_sends mtch (tokens text) s) as [l1 [Hl1 Hone]].
    apply one_lookup_length in Hone.
    destruct (search_pa_list mtch (pa_list w) (tokens text) s) as [[answers|e] s1];
      simpl in Hl1.
    + destruct (IH s1 ((out ++ [print ""; prompt]) ++ map print answers))
        as [read [l [Hread [Hl Hlen]]]].
      exists (Line text :: read), (l1 ++ l). repeat split.
      * simpl. now rewrite <- Hread.
      * now rewrite Hl, Hl1, app_assoc.
      * rewrite length_app. simpl. lia.
    + exists [Line text], l1. destruct (caught e); simpl; repeat split;
        try assumption; lia.
  - exists [CtrlC], []. simpl. rewrite app_nil_r. repeat split. lia.
Qed.

End QueryRequests.

(** X13: with the registry of the program, whatever the matcher, one call
    of [search_pa_list] sends at most one lookup to the knowledge source:
    nothing, a search, or a search followed by the fetch of one page; the
    requests already logged stay. *)
Theorem search_pa_list_requests (w : World) (mtch : Matcher) (src : list string)
    (s : Session w) :
  exists l,
    requests (snd (search_pa_list mtch (pa_list w) src s)) = requests s ++ l
    /\ one_lookup l
    /\ length l <= 2.
Proof.
  destruct (search_pa_list_sends mtch src s) as [l [Hl Hone]].
  exists l. repeat split; [exact Hl | exact Hone | now apply one_lookup_length].
Qed.

(** X14: a run of the query loop reads a prefix of the console input and
    sends at most two requests per event read; the requests logged before
    the run stay in front of the log. *)
Theorem query_loop_requests (w : World) (mtch : Matcher) (stdin : list console)
    (s : Session w) :
  exists read l,
    stdin = read ++ unread (query_loop mtch (pa_list w) stdin s)
    /\ requests (session (query_loop mtch (pa_list w) stdin s)) = requests s ++ l
    /\ length l <= 2 * length read.
Proof. unfold query_loop. apply loop_requests. Qed.

(** ** How a run ends *)

Lemma last_two (out : list string) (a b : string) :
  last (out ++ [a; b]) "" = b.
Proof.
  change [a; b] with ([a] ++ [b]). rewrite app_assoc. apply last_last.
Qed.

Lemma loop_endings (w : World) (mtch : Matcher) (pa : list (Pattern * Action w))
    (stdin : list console) :
  forall (s : Session w) (out : list string),
    (exists more, written (loop mtch pa stdin s out) = out ++ more)
    /\ match status (loop mtch pa stdin s out) with
       | ExitSuccess => last (written (loop mtch pa stdin s out)) "" = farewell
       | Uncaught e =>
           caught e = false
           /\ last (written (loop mtch pa stdin s out)) "" = prompt
       end.
Proof.
  assert (forall (rest : list console) (s : Session w) (out : list string),
            (exists more, written (so_long rest s (out ++ [print ""; prompt]))
                          = out ++ more)
            /\ last (written (so_long rest s (out ++ [print ""; prompt]))) ""
               = farewell) as Hso_long.
  { intros rest s out. simpl. split; [|apply last_last].
    eexists. now rewrite <- app_assoc. }
  induction stdin as [|[text|] rest IH]; intros s out.
  - apply Hso_long.
  - rewrite loop_line.
    destruct (search_pa_list mtch pa (tokens text) s) as [[answers|e] s1].
    + destruct (IH s1 ((out ++ [print ""; prompt]) ++ map print answers))
        as [[more Hmore] Hlast].
      split; [|exact Hlast].
      exists ([print ""; prompt] ++ map print answers ++ more).
      now rewrite Hmore, <- !app_assoc.
    + destruct (caught e) eqn:E; [apply Hso_long|]. simpl.
      split; [now eexists | split; [exact E | apply last_two]].
  - apply Hso_long.
Qed.

(** X15: how a run of the query loop ends, whatever the matcher and the
    registry.  The first thing written is the welcome.  Either the
    process exits with success, and the last thing written is the shutdown
    message; or it dies of an exception, which is neither
    [KeyboardInterrupt] nor [EOFError], and the last thing written is the
    prompt of the query that failed. *)
Theorem query_loop_endings (w : World) (mtch : Matcher)
    (pa : list (Pattern * Action w)) (stdin : list console) (s : Session w) :
  hd_error (written (query_loop mtch pa stdin s)) = Some welcome
  /\ match status (query_loop mtch pa stdin s) with
     | ExitSuccess => last (written (query_loop mtch pa stdin s)) "" = farewell
     | Uncaught e =>
         caught e = false
         /\ last (written (query_loop mtch pa stdin s)) "" = prompt
     end.
Proof.
  unfold query_loop. fold welcome.
  destruct (loop_endings w mtch pa stdin s [welcome]) as [[more Hmore] Hlast].
  split; [now rewrite Hmore | exact Hlast].
Qed.

Lemma loop_unknown (w : World) (mtch : Matcher) (pa : list (Pattern * Action w))
    (lines : list string) (s : Session w) :
  Forall (fun line => none_match mtch (tokens line) pa) lines ->
  forall out : list string,
    loop mtch pa (map Line lines) s out =
    {| status := ExitSuccess;
       written :=
         out
         ++ flat_map (fun _ => [print ""; prompt; print "I don't understand"]) lines
         ++ [print ""; prompt; farewell];
       unread := [];
       session := s |}.
Proof.
  induction 1 as [|line lines Hnone _ IH]; intros out.
  - simpl. unfold so_long. now rewrite <- app_assoc.
  - simpl map. rewrite loop_line, (search_none w mtch pa _ Hnone).
    unfold ret. rewrite IH. f_equal. simpl. now rewrite <- !app_assoc.
Qed.

(** X16: when no entry of the registry matches any of the typed lines,
    the loop answers each of them with "I don't understand", leaves the
    session as it was, and at the end of the input prints the shutdown
    message and exits with success. *)
Theorem unknown_questions_only (w : World) (mtch : Matcher)
    (pa : list (Pattern * Action w)) (lines : list string) (s : Session w) :
  Forall (fun line => none_match mtch (tokens line) pa) lines ->
  query_loop mtch pa (map Line lines) s =
  {| status := ExitSuccess;
     written :=
       [welcome]
       ++ flat_map (fun _ => [print ""; prompt; print "I don't understand"]) lines
       ++ [print ""; prompt; farewell];
     unread := [];
     session := s |}.
Proof. intros H. unfold query_loop. now apply loop_unknown. Qed.

Lemma unknown_questions_only_witness :
  query_loop match_ (pa_list (sample_world true))
    (map Line ["Hello there"; "when is lunch?"]) (fresh (sample_world true) tt) =
  {| status := ExitSuccess;
     written :=
       [welcome]
       ++ flat_map (fun _ => [print ""; prompt; print "I don't understand"])
            ["Hello there"; "when is lunch?"]
       ++ [print ""; prompt; farewell];
     unread := [];
     session := fresh (sample_world true) tt |}.
Proof.
  apply (unknown_questions_only (sample_world true) match_
           (pa_list (sample_world true)) ["Hello there"; "when is lunch?"]).
  repeat constructor.
Defined.

(** X17: [polar_radius] has no guard for an empty binding: when the
    polar-radius template is the first to match a line and binds nothing,
    the action fails with [IndexError] before any request is sent, and the
    process dies of it: no answer, no shutdown message, the rest of the
    input unread. *)
Theorem polar_radius_without_planet (w : World) (mtch : Matcher) (line : string)
    (rest : list console) (s : Session w) :
  none_match mtch (tokens line) (firstn 1 (pa_list w)) ->
  mtch (split "what is the polar radius of %") (tokens line) = Some [] ->
  polar_radius [] s = (Raise IndexError, s)
  /\ query_loop mtch (pa_list w) (Line line :: rest) s =
     {| status := Uncaught IndexError;
        written := [welcome; print ""; prompt];
        unread := rest;
        session := s |}.
Proof.
  intros Hnone Hm. split; [reflexivity|].
  pose proof (search_runs_first_match mtch (firstn 1 (pa_list w))
                (skipn 2 (pa_list w)) (split "what is the polar radius of %")
                polar_radius (tokens line) [] Hnone Hm) as H.
  apply (f_equal (fun m => m s)) in H.
  assert (search_pa_list mtch (pa_list w) (tokens line) s = (Raise IndexError, s))
    as Hsearch by exact H.
  unfold query_loop. now rewrite loop_line, Hsearch.
Qed.

Lemma polar_radius_without_planet_witness :
  query_loop match_ (pa_list (sample_world true))
    [Line "What is the polar radius of?"; Line "bye"] (fresh (sample_world true) tt) =
  {| status := Uncaught IndexError;
     written := [welcome; print ""; prompt];
     unread := [Line "bye"];
     session := fresh (sample_world true) tt |}.
Proof.
  apply (polar_radius_without_planet (sample_world true) match_
           "What is the polar radius of?" [Line "bye"]
           (fresh (sample_world true) tt)).
  - repeat constructor.
  - reflexivity.
Defined.

(** ** What each action looks up *)


